(** * js-metrics-plus: samples, EWMA, histogram, meter and timer

    A shallow embedding of [src/sample.ts], the EWMA and meter classes and
    [src/histogram.ts], with the properties of the sampling core stated and
    proved (or evaluated) on it.

    Conventions of the embedding.
    - A finite JavaScript number is an exact rational ([Q]); rounding of
      doubles, signed zeros and overflow are not modelled.  The two places of
      the code where a non-finite number or [undefined] arises from finite
      inputs (the division by the random divisor in [ExpDecaySample.update]
      and the array reads of [samplePercentiles]) use the extended type
      [jsnum].
    - Arrays and [Date] objects are mutable and can be aliased, so they live in
      a heap ([gmap loc object]) and fields hold locations.
    - [Math.random()] and the clock are explicit arguments ([u] and [now]) of
      the operation that reads them; all clock reads of one call see the same
      instant.
    - [Math.exp] and [Math.sqrt] are parameters of the definitions using them.
    - The name, description and id of [BaseMetric] play no role and are left
      out. *)

From Stdlib Require Import QArith Qround Qpower ZArith String Ascii DecimalString Lia Lqa.
From stdpp Require Import gmap list.

(** ** Numbers *)

Definition Qltb (x y : Q) : bool := negb (Qle_bool y x).

(** Doubles that need not be finite. *)
Inductive jsnum : Type :=
| Fin (q : Q)
| PInf
| NInf
| NaN.

Definition isFinite (x : jsnum) : bool :=
  match x with Fin _ => true | _ => false end.

(** Sign of a rational as a comparison with zero. *)
Definition Qsign (q : Q) : comparison := (q ?= 0)%Q.

Definition jsnum_neg (x : jsnum) : jsnum :=
  match x with
  | Fin q => Fin (- q)%Q
  | PInf => NInf
  | NInf => PInf
  | NaN => NaN
  end.

Definition jsnum_add (x y : jsnum) : jsnum :=
  match x, y with
  | NaN, _ | _, NaN => NaN
  | Fin a, Fin b => Fin (a + b)%Q
  | PInf, NInf | NInf, PInf => NaN
  | PInf, _ | _, PInf => PInf
  | NInf, _ | _, NInf => NInf
  end.

Definition jsnum_sub (x y : jsnum) : jsnum := jsnum_add x (jsnum_neg y).

(** An infinity scaled by a finite factor. *)
Definition scale_inf (pos : bool) (q : Q) : jsnum :=
  match Qsign q with
  | Eq => NaN
  | Gt => if pos then PInf else NInf
  | Lt => if pos then NInf else PInf
  end.

Definition jsnum_mul (x y : jsnum) : jsnum :=
  match x, y with
  | NaN, _ | _, NaN => NaN
  | Fin a, Fin b => Fin (a * b)%Q
  | PInf, Fin b | Fin b, PInf => scale_inf true b
  | NInf, Fin b | Fin b, NInf => scale_inf false b
  | PInf, PInf | NInf, NInf => PInf
  | PInf, NInf | NInf, PInf => NInf
  end.

(** Division; a zero divisor is taken as [+0]. *)
Definition jsnum_div (x y : jsnum) : jsnum :=
  match x, y with
  | NaN, _ | _, NaN => NaN
  | Fin a, Fin b =>
      match Qsign b with
      | Eq => match Qsign a with Eq => NaN | Gt => PInf | Lt => NInf end
      | _ => Fin (a / b)%Q
      end
  | Fin _, (PInf | NInf) => Fin 0
  | (PInf | NInf), (PInf | NInf) => NaN
  | PInf, Fin b => match Qsign b with Lt => NInf | _ => PInf end
  | NInf, Fin b => match Qsign b with Lt => PInf | _ => NInf end
  end.

(** [ToNumber] on the result of an array read: [undefined] becomes [NaN]. *)
Definition ToNumber (v : option Q) : jsnum :=
  match v with Some q => Fin q | None => NaN end.

Definition Math_floor (q : Q) : Q := inject_Z (Qfloor q).

Definition MIN_SAFE_INTEGER : Q := inject_Z (- (2 ^ 53 - 1)).
Definition MAX_SAFE_INTEGER : Q := inject_Z (2 ^ 53 - 1).

(** ** Number to string, and the default order of [Array.prototype.sort] *)

(** Decimal digits of the fractional part [r / d] (with [0 <= r < d]), at most
    [fuel] of them. *)
Fixpoint frac_digits (fuel : nat) (r d : Z) : string :=
  match fuel with
  | O => EmptyString
  | S k =>
      if (r =? 0)%Z then EmptyString
      else
        let r10 := (10 * r)%Z in
        (NilZero.string_of_uint (N.to_uint (Z.to_N (r10 / d))) ++ frac_digits k (r10 mod d) d)%string
  end.

(** [Number::toString] in radix 10: exact on integers and on finite decimals
    of at most 17 fractional digits (no exponent notation). *)
Definition Number_toString (q : Q) : string :=
  let n := Qnum q in
  let d := Z.pos (Qden q) in
  let a := Z.abs n in
  ((if (n <? 0)%Z then "-" else "")
     ++ NilZero.string_of_uint (N.to_uint (Z.to_N (a / d)))
     ++ (if (a mod d =? 0)%Z then "" else "." ++ frac_digits 17 (a mod d) d))%string.

(** [vals.sort()] without a comparator orders the elements by their string
    images, code unit by code unit. *)
Definition SortCompare_lt (x y : Q) : bool :=
  String.ltb (Number_toString x) (Number_toString y).

Fixpoint sort_insert (x : Q) (l : list Q) : list Q :=
  match l with
  | [] => [x]
  | y :: l' => if SortCompare_lt y x then y :: sort_insert x l' else x :: y :: l'
  end.

(** The sort is stable: an element is inserted before the equal ones that
    followed it. *)
Definition Array_sort (l : list Q) : list Q := foldr sort_insert [] l.

(** ** Array reads and writes with a number as index *)

Definition is_index (idx : Q) : bool :=
  Qeq_bool (Math_floor idx) idx && (0 <=? Qfloor idx)%Z.

(** [vals[idx]]: [undefined] unless [idx] is an integer inside the array. *)
Definition Array_get (vals : list Q) (idx : Q) : option Q :=
  if is_index idx then vals !! Z.to_nat (Qfloor idx) else None.

(** [vals[r] = x] for an integer [r] below the length; a negative [r] names a
    property that is not an element. *)
Definition Array_set (vals : list Q) (r : Z) (x : Q) : list Q :=
  if (0 <=? r)%Z then <[Z.to_nat r := x]> vals else vals.

(** [vals.pop()] *)
Definition Array_pop (vals : list Q) : list Q := removelast vals.

Definition Array_length (vals : list Q) : Q := inject_Z (Z.of_nat (length vals)).

(** ** Statistics helpers of [sample.ts] *)

Definition sampleSum (vals : list Q) : Q :=
  foldl (fun sum v => (sum + v)%Q) 0%Q vals.

Definition sampleMax (vals : list Q) : Q :=
  if Qeq_bool (Array_length vals) 0 then 0%Q
  else foldl (fun max v => if Qltb max v then v else max) MIN_SAFE_INTEGER vals.

Definition sampleMean (vals : list Q) : Q :=
  if Qeq_bool (Array_length vals) 0 then 0%Q
  else (sampleSum vals / Array_length vals)%Q.

Definition sampleMin (vals : list Q) : Q :=
  if Qeq_bool (Array_length vals) 0 then 0%Q
  else foldl (fun min v => if Qltb v min then v else min) MAX_SAFE_INTEGER vals.

Definition sampleVariance (vals : list Q) : Q :=
  if Qeq_bool (Array_length vals) 0 then 0%Q
  else
    let m := sampleMean vals in
    (foldl (fun sum v => let d := (v - m)%Q in (sum + d * d)%Q) 0%Q vals
       / Array_length vals)%Q.

Definition sampleStdDev (Math_sqrt : Q -> Q) (vals : list Q) : Q :=
  Math_sqrt (sampleVariance vals).

(** One iteration of the loop over [ps], on the sorted array. *)
Definition percentile_score (vals : list Q) (p : Q) : jsnum :=
  let len := Array_length vals in
  let pos := (p * (len + 1))%Q in
  if Qltb pos 1 then ToNumber (Array_get vals 0)
  else if Qle_bool len pos then ToNumber (Array_get vals (len - 1))
  else
    let lower := ToNumber (Array_get vals (pos - 1)) in
    let upper := ToNumber (Array_get vals pos) in
    jsnum_add lower
      (jsnum_mul (Fin (pos - Math_floor pos)) (jsnum_sub upper lower)).

(** [samplePercentiles] sorts [vals] in place: the result is the array as it
    is left, and the scores. *)
Definition samplePercentiles (vals : list Q) (ps : list Q) : list Q * list jsnum :=
  if Qeq_bool (Array_length vals) 0 then (vals, map (fun _ => Fin 0) ps)
  else
    let sorted := Array_sort vals in
    (sorted, map (percentile_score sorted) ps).

(** [scores[0]]; reading an empty array gives [undefined]. *)
Definition first_score (scores : list jsnum) : jsnum :=
  match scores with
  | s :: _ => s
  | [] => NaN
  end.

(** [samplePercentiles(vals, [p])[0]] *)
Definition samplePercentile (vals : list Q) (p : Q) : list Q * jsnum :=
  let '(vals', scores) := samplePercentiles vals [p] in
  (vals', first_score scores).

(** ** The heap *)

Abbreviation loc := positive.

Inductive object : Type :=
| ArrayObj (elems : list Q)
| DateObj (time : Q).

Abbreviation heap := (gmap loc object).

(** [new ...]: the object is stored at a location not yet in use. *)
Definition alloc (h : heap) (o : object) : loc * heap :=
  let l := fresh (dom h) in (l, <[l := o]> h).

Definition read_array (h : heap) (l : loc) : list Q :=
  match h !! l with
  | Some (ArrayObj vs) => vs
  | _ => []
  end.

Definition write_array (h : heap) (l : loc) (vs : list Q) : heap :=
  match h !! l with
  | Some (ArrayObj _) => <[l := ArrayObj vs]> h
  | _ => h
  end.

(** [d.getTime()] and [d.setTime(t)] *)
Definition getTime (h : heap) (d : loc) : Q :=
  match h !! d with
  | Some (DateObj t) => t
  | _ => 0%Q
  end.

Definition setTime (h : heap) (d : loc) (t : Q) : heap :=
  match h !! d with
  | Some (DateObj _) => <[d := DateObj t]> h
  | _ => h
  end.

(** ** UniformSample *)

Record UniformSample : Type := mkUniformSample {
  reservoirSize : Q;
  _count : Z;
  _values : loc
}.

Module Uniform.

(** [new UniformSample(reservoirSize)] *)
Definition new (R : Q) (h : heap) : UniformSample * heap :=
  let '(l, h') := alloc h (ArrayObj []) in
  (mkUniformSample R 0 l, h').

Definition clear (s : UniformSample) (h : heap) : UniformSample * heap :=
  let '(l, h') := alloc h (ArrayObj []) in
  (mkUniformSample (reservoirSize s) 0 l, h').

Definition count (s : UniformSample) : Z := _count s.

Definition max (s : UniformSample) (h : heap) : Q :=
  sampleMax (read_array h (_values s)).

Definition mean (s : UniformSample) (h : heap) : Q :=
  sampleMean (read_array h (_values s)).

Definition min (s : UniformSample) (h : heap) : Q :=
  sampleMin (read_array h (_values s)).

(** The percentile queries sort the array of the sample in place. *)
Definition percentile (p : Q) (s : UniformSample) (h : heap) : jsnum * heap :=
  let '(vals', score) := samplePercentile (read_array h (_values s)) p in
  (score, write_array h (_values s) vals').

Definition percentiles (ps : list Q) (s : UniformSample) (h : heap)
  : list jsnum * heap :=
  let '(vals', scores) := samplePercentiles (read_array h (_values s)) ps in
  (scores, write_array h (_values s) vals').

Definition size (s : UniformSample) (h : heap) : Q :=
  Array_length (read_array h (_values s)).

(** [snapshot()] hands out the array of the sample itself. *)
Definition snapshot (s : UniformSample) : Z * loc := (_count s, _values s).

Definition stdDev (Math_sqrt : Q -> Q) (s : UniformSample) (h : heap) : Q :=
  sampleStdDev Math_sqrt (read_array h (_values s)).

Definition sum (s : UniformSample) (h : heap) : Q :=
  sampleSum (read_array h (_values s)).

(** [update(i)], with [u] the value of [Math.random()]. *)
Definition update (u : Q) (i : Q) (s : UniformSample) (h : heap)
  : UniformSample * heap :=
  let s1 := mkUniformSample (reservoirSize s) (_count s + 1) (_values s) in
  let vals := read_array h (_values s) in
  if Qltb (size s1 h) (reservoirSize s1) then
    (s1, write_array h (_values s1) (vals ++ [i]))
  else
    let r := Qfloor (u * inject_Z (_count s1)) in
    if Qltb (inject_Z r) (Array_length vals) then
      (s1, write_array h (_values s1) (Array_set vals r i))
    else (s1, h).

(** [values()]: [Object.assign([], this._values)] fills a new array. *)
Definition values (s : UniformSample) (h : heap) : loc * heap :=
  alloc h (ArrayObj (read_array h (_values s))).

Definition variance (s : UniformSample) (h : heap) : Q :=
  sampleVariance (read_array h (_values s)).

End Uniform.

(** ** ExpDecaySample *)

Record entry : Type := mkEntry {
  key : jsnum;
  value : Q
}.

(** [super] holds the fields of the base class; [ed_reservoirSize] and
    [ed_values] are the private [#reservoirSize] and [#values] of the
    subclass. *)
Record ExpDecaySample : Type := mkExpDecaySample {
  super : UniformSample;
  ed_reservoirSize : Q;
  ed_alpha : Q;
  ed_t0 : loc;
  ed_t1 : loc;
  ed_values : list entry
}.

Definition rescaleThreshold : Q := 3600000.

Module ExpDecay.
Section WithExp.

Variable Math_exp : Q -> Q.

(** The constructor lets [#t1] name the [Date] object of [#t0] and then
    moves that one object. *)
Definition new (alpha R : Q) (now : Q) (h : heap) : ExpDecaySample * heap :=
  let '(s, h1) := Uniform.new R h in
  let '(d, h2) := alloc h1 (DateObj now) in
  let h3 := setTime h2 d (getTime h2 d + rescaleThreshold)%Q in
  (mkExpDecaySample s R alpha d d [], h3).

Definition clear (now : Q) (s : ExpDecaySample) (h : heap)
  : ExpDecaySample * heap :=
  let '(s', h1) := Uniform.clear (super s) h in
  let '(d, h2) := alloc h1 (DateObj now) in
  let h3 := setTime h2 (ed_t1 s) (getTime h2 (ed_t1 s) + rescaleThreshold)%Q in
  (mkExpDecaySample s' (ed_reservoirSize s) (ed_alpha s) d (ed_t1 s)
     (ed_values s), h3).

(** The divisor [f] of [update], from the count after the increment. *)
Definition divisor (u : Q) (count : Z) : Z := Qfloor (u * inject_Z count).

Definition rescale (factor : Q) (e : entry) : entry :=
  mkEntry (jsnum_mul (key e) (Fin factor)) (value e).

(** [update(i)] at time [now], with [u] the value of [Math.random()]. *)
Definition update (now u : Q) (i : Q) (s : ExpDecaySample) (h : heap)
  : ExpDecaySample * heap :=
  let '(t, h1) := alloc h (DateObj now) in
  let sup := mkUniformSample (reservoirSize (super s)) (_count (super s) + 1)
               (_values (super s)) in
  let h2 :=
    if Qeq_bool (Uniform.size sup h1) (ed_reservoirSize s) then
      write_array h1 (_values sup) (Array_pop (read_array h1 (_values sup)))
    else h1 in
  let f := divisor u (_count sup) in
  let elapsed := ((getTime h2 t - getTime h2 (ed_t0 s)) / 1000)%Q in
  let vals :=
    ed_values s
      ++ [mkEntry (jsnum_div (Fin (Math_exp (elapsed * ed_alpha s))) (Fin (inject_Z f))) i] in
  if Qltb (getTime h2 (ed_t1 s)) (getTime h2 t) then
    let t0 := ed_t0 s in
    let h3 := setTime h2 (ed_t1 s) (getTime h2 t + rescaleThreshold)%Q in
    let factor :=
      Math_exp (- ed_alpha s * (getTime h3 t - getTime h3 t0) / 1000)%Q in
    (mkExpDecaySample sup (ed_reservoirSize s) (ed_alpha s) t (ed_t1 s)
       (map (rescale factor) vals), h3)
  else
    (mkExpDecaySample sup (ed_reservoirSize s) (ed_alpha s) (ed_t0 s) (ed_t1 s)
       vals, h2).

End WithExp.
End ExpDecay.

(** ** The [Sample] interface, with its two implementations *)

Inductive Sample : Type :=
| SUniform (s : UniformSample)
| SExpDecay (s : ExpDecaySample).

(** The fields of [UniformSample] in either implementation; every method but
    [clear] and [update] is inherited by [ExpDecaySample]. *)
Definition base (s : Sample) : UniformSample :=
  match s with
  | SUniform s => s
  | SExpDecay s => super s
  end.

Definition Sample_update (Math_exp : Q -> Q) (now u : Q) (i : Q) (s : Sample)
  (h : heap) : Sample * heap :=
  match s with
  | SUniform s => let '(s', h') := Uniform.update u i s h in (SUniform s', h')
  | SExpDecay s =>
      let '(s', h') := ExpDecay.update Math_exp now u i s h in (SExpDecay s', h')
  end.

(** ** EWMA *)

Record StandardEWMA : Type := mkEWMA {
  ewma_alpha : Q;
  ewma_period : Q;
  ewma_ts : Q;
  ewma_ewma : Q;
  ewma_sample : Q;
  ewma_init : bool
}.

Module EWMA.

(** [new StandardEWMA(alpha, period)] at time [now]. *)
Definition new (alpha period : Q) (now : Q) : StandardEWMA :=
  mkEWMA alpha period now 0 0 false.

(** The block guarded by [!this.#init]. *)
Definition first_commit (e : StandardEWMA) (seconds : Q) : StandardEWMA :=
  mkEWMA (ewma_alpha e) (ewma_period e) (ewma_ts e + ewma_period e)%Q
    (ewma_sample e / seconds)%Q 0 true.

(** The block guarded by the first [periods >= 1]. *)
Definition commit (e : StandardEWMA) (seconds : Q) : StandardEWMA :=
  mkEWMA (ewma_alpha e) (ewma_period e) (ewma_ts e + ewma_period e)%Q
    (ewma_alpha e * (ewma_sample e / seconds) + (1 - ewma_alpha e) * ewma_ewma e)%Q
    0 (ewma_init e).

(** The body of [while (periods >= 1)]. *)
Definition decay (e : StandardEWMA) : StandardEWMA :=
  mkEWMA (ewma_alpha e) (ewma_period e) (ewma_ts e + ewma_period e)%Q
    ((1 - ewma_alpha e) * ewma_ewma e)%Q (ewma_sample e) (ewma_init e).

(** [while (periods >= 1) { ...; periods -= 1 }]; [None] when the fuel runs
    out before the guard fails. *)
Fixpoint idle_loop (fuel : nat) (e : StandardEWMA) (periods : Q)
  : option StandardEWMA :=
  if Qle_bool 1 periods then
    match fuel with
    | O => None
    | S k => idle_loop k (decay e) (periods - 1)%Q
    end
  else Some e.

(** The statements shared by [rate] and [update] after their early returns. *)
Definition advance (e : StandardEWMA) (periods : Q) : option StandardEWMA :=
  let seconds := (ewma_period e / 1000)%Q in
  let '(e1, periods1) :=
    if negb (ewma_init e) then (first_commit e seconds, (periods - 1)%Q)
    else (e, periods) in
  let '(e2, periods2) :=
    if Qle_bool 1 periods1 then (commit e1 seconds, (periods1 - 1)%Q)
    else (e1, periods1) in
  idle_loop (Z.to_nat (Qfloor periods2)) e2 periods2.

(** [rate()] at time [now]: the rate and the state it leaves. *)
Definition rate (now : Q) (e : StandardEWMA) : option (Q * StandardEWMA) :=
  let periods := ((now - ewma_ts e) / ewma_period e)%Q in
  if Qltb periods 1 || negb (ewma_init e) then Some (ewma_ewma e, e)
  else
    match advance e periods with
    | Some e' => Some (ewma_ewma e', e')
    | None => None
    end.

Definition add_sample (e : StandardEWMA) (i : Q) : StandardEWMA :=
  mkEWMA (ewma_alpha e) (ewma_period e) (ewma_ts e) (ewma_ewma e)
    (ewma_sample e + i)%Q (ewma_init e).

(** [update(i)] at time [now]. *)
Definition update (now : Q) (i : Q) (e : StandardEWMA) : option StandardEWMA :=
  let periods := ((now - ewma_ts e) / ewma_period e)%Q in
  if negb (ewma_init e) && Qltb periods 1 then
    Some (mkEWMA (ewma_alpha e) (ewma_period e) (ewma_ts e) 0
            (ewma_sample e + i)%Q (ewma_init e))
  else if Qltb periods 1 then Some (add_sample e i)
  else
    match advance e periods with
    | Some e' => Some (add_sample e' i)
    | None => None
    end.

Section WithExp.

Variable Math_exp : Q -> Q.

Definition alpha1 : Q := (1 - Math_exp (- 5 / 60 / 1))%Q.
Definition alpha5 : Q := (1 - Math_exp (- 5 / 60 / 5))%Q.
Definition alpha15 : Q := (1 - Math_exp (- 5 / 60 / 15))%Q.

Definition newEWMA1 (now : Q) : StandardEWMA := new alpha1 5000 now.
Definition newEWMA5 (now : Q) : StandardEWMA := new alpha5 5000 now.
Definition newEWMA15 (now : Q) : StandardEWMA := new alpha15 5000 now.

End WithExp.

End EWMA.

(** The periods between [ts] and [now], as [rate] and [update] compute them. *)
Definition periods_at (now : Q) (e : StandardEWMA) : Q :=
  ((now - ewma_ts e) / ewma_period e)%Q.

(** ** Meter *)

Record StandardMeter : Type := mkMeter {
  meter_count : Q;
  meter_a1 : StandardEWMA;
  meter_a5 : StandardEWMA;
  meter_a15 : StandardEWMA;
  meter_start : Q
}.

Module Meter.

Definition new (Math_exp : Q -> Q) (now : Q) : StandardMeter :=
  mkMeter 0 (EWMA.newEWMA1 Math_exp now) (EWMA.newEWMA5 Math_exp now)
    (EWMA.newEWMA15 Math_exp now) now.

Definition count (m : StandardMeter) : Q := meter_count m.

Definition mark (now : Q) (i : Q) (m : StandardMeter) : option StandardMeter :=
  a1 ← EWMA.update now i (meter_a1 m);
  a5 ← EWMA.update now i (meter_a5 m);
  a15 ← EWMA.update now i (meter_a15 m);
  Some (mkMeter (meter_count m + i)%Q a1 a5 a15 (meter_start m)).

Definition rate1 (now : Q) (m : StandardMeter) : option (Q * StandardMeter) :=
  '(r, a) ← EWMA.rate now (meter_a1 m);
  Some (r, mkMeter (meter_count m) a (meter_a5 m) (meter_a15 m) (meter_start m)).

Definition rateMean (now : Q) (m : StandardMeter) : Q :=
  let elapsed := ((now - meter_start m) / 1000)%Q in
  (count m / (1 + elapsed))%Q.

End Meter.

(** ** Histogram and Timer *)

Record StandardHistogram : Type := mkHistogram {
  hist_sample : Sample
}.

Module Histogram.

Definition count (g : StandardHistogram) : Z :=
  Uniform.count (base (hist_sample g)).

Definition max (g : StandardHistogram) (h : heap) : Q :=
  Uniform.max (base (hist_sample g)) h.

Definition min (g : StandardHistogram) (h : heap) : Q :=
  Uniform.min (base (hist_sample g)) h.

Definition update (Math_exp : Q -> Q) (now u : Q) (v : Q)
  (g : StandardHistogram) (h : heap) : StandardHistogram * heap :=
  let '(s, h') := Sample_update Math_exp now u v (hist_sample g) h in
  (mkHistogram s, h').

End Histogram.

Record StandardTimer : Type := mkTimer {
  timer_hist : StandardHistogram;
  timer_meter : StandardMeter
}.

Module Timer.
Section WithExp.

Variable Math_exp : Q -> Q.

(** [new StandardTimer()] at time [now]: the meter first, then a histogram
    over [new ExpDecaySample(0.015, 1028)]. *)
Definition new (now : Q) (h : heap) : StandardTimer * heap :=
  let m := Meter.new Math_exp now in
  let '(s, h') := ExpDecay.new (15 # 1000) 1028 now h in
  (mkTimer (mkHistogram (SExpDecay s)) m, h').

Definition count (t : StandardTimer) : Z := Histogram.count (timer_hist t).

Definition max (t : StandardTimer) (h : heap) : Q :=
  Histogram.max (timer_hist t) h.

Definition min (t : StandardTimer) (h : heap) : Q :=
  Histogram.min (timer_hist t) h.

(** [update(t)] at time [now], with [u] the value of [Math.random()]. *)
Definition update (now u : Q) (v : Q) (t : StandardTimer) (h : heap)
  : option (StandardTimer * heap) :=
  let '(g, h') := Histogram.update Math_exp now u v (timer_hist t) h in
  m ← Meter.mark now 1 (timer_meter t);
  Some (mkTimer g m, h').

End WithExp.
End Timer.

(** ** Sequences of calls *)

(** The retained values of a uniform sample. *)
Definition retained (st : UniformSample * heap) : list Q :=
  read_array st.2 (_values st.1).

(** A sequence of [update] calls; each one comes with the value [u] its
    [Math.random()] call would return, and the sampled value. *)
Definition run_updates (ops : list (Q * Q)) (st : UniformSample * heap)
  : UniformSample * heap :=
  foldl (fun st op => Uniform.update op.1 op.2 st.1 st.2) st ops.

(** The state of a new sample of reservoir size [R] after the calls [ops]. *)
Definition uniform_after (R : Q) (ops : list (Q * Q)) (h : heap)
  : UniformSample * heap :=
  run_updates ops (Uniform.new R h).

(** The contents of the array that [values()] returns. *)
Definition values_of (st : UniformSample * heap) : list Q :=
  read_array (Uniform.values st.1 st.2).2 (Uniform.values st.1 st.2).1.

(** A new exponentially-decaying sample (created at [t0]) after a sequence
    of [update] calls, each with its instant, its random value and the
    sampled value. *)
Definition expdecay_after (Math_exp : Q -> Q) (alpha R t0 : Q)
  (ops : list (Q * Q * Q)) (h : heap) : ExpDecaySample * heap :=
  foldl (fun st op => ExpDecay.update Math_exp op.1.1 op.1.2 op.2 st.1 st.2)
    (ExpDecay.new alpha R t0 h) ops.

(** [values()] of either implementation: the method of the base class. *)
Definition Sample_values (s : Sample) (h : heap) : loc * heap :=
  Uniform.values (base s) h.

(** The statistics queries of the [Sample] interface. *)
Inductive query : Type :=
| QCount
| QMax
| QMean
| QMin
| QPercentile (p : Q)
| QPercentiles (ps : list Q)
| QSize
| QStdDev
| QSum
| QVariance.

Inductive answer : Type :=
| ACount (n : Z)
| ANumber (q : Q)
| AScore (x : jsnum)
| AScores (xs : list jsnum).

Section Queries.

Variable Math_sqrt : Q -> Q.

Definition ask (q : query) (s : Sample) (h : heap) : answer * heap :=
  match q with
  | QCount => (ACount (Uniform.count (base s)), h)
  | QMax => (ANumber (Uniform.max (base s) h), h)
  | QMean => (ANumber (Uniform.mean (base s) h), h)
  | QMin => (ANumber (Uniform.min (base s) h), h)
  | QPercentile p =>
      let '(x, h') := Uniform.percentile p (base s) h in (AScore x, h')
  | QPercentiles ps =>
      let '(xs, h') := Uniform.percentiles ps (base s) h in (AScores xs, h')
  | QSize => (ANumber (Uniform.size (base s) h), h)
  | QStdDev => (ANumber (Uniform.stdDev Math_sqrt (base s) h), h)
  | QSum => (ANumber (Uniform.sum (base s) h), h)
  | QVariance => (ANumber (Uniform.variance (base s) h), h)
  end.

(** A sequence of queries, each on the heap the one before left. *)
Fixpoint ask_all (qs : list query) (s : Sample) (h : heap)
  : list answer * heap :=
  match qs with
  | [] => ([], h)
  | q :: qs' =>
      let '(a, h1) := ask q s h in
      let '(rest, h2) := ask_all qs' s h1 in
      (a :: rest, h2)
  end.

End Queries.

(** ** The percentile as the specification words it *)

Fixpoint numeric_insert (x : Q) (l : list Q) : list Q :=
  match l with
  | [] => [x]
  | y :: l' => if Qltb y x then y :: numeric_insert x l' else x :: y :: l'
  end.

Definition numeric_sort (l : list Q) : list Q := foldr numeric_insert [] l.

(** Sort ascending; [pos = p * (len + 1)]; below 1 the first element, from
    [len] on the last one, otherwise the interpolation between
    [V[floor(pos) - 1]] and [V[floor(pos)]] weighted by the fractional part. *)
Definition percentile_spec (V : list Q) (p : Q) : Q :=
  let sorted := numeric_sort V in
  let len := length V in
  let pos := (p * (Array_length V + 1))%Q in
  if Qltb pos 1 then nth 0 sorted 0%Q
  else if Qle_bool (Array_length V) pos then nth (len - 1) sorted 0%Q
  else
    let k := Z.to_nat (Qfloor pos) in
    let lower := nth (k - 1) sorted 0%Q in
    let upper := nth k sorted 0%Q in
    (lower + (pos - Math_floor pos) * (upper - lower))%Q.

(** ** Stand-ins for [Math.sqrt] and [Math.exp] on rationals *)

(** Exact on squares of rationals, truncated to 53 binary places otherwise
    (for [q >= 0]); it stands for [Math.sqrt] where a concrete one is needed. *)
Definition sqrt_trunc (q : Q) : Q :=
  Z.sqrt (Qnum q * Z.pos (Qden q) * 4 ^ 53) # (Qden q * 2 ^ 53).

(** The exponential series cut after [n] terms. *)
Fixpoint exp_terms (n : nat) (q term : Q) (k : Z) : Q :=
  match n with
  | O => 0%Q
  | S n' => (term + exp_terms n' q (term * q / inject_Z k) (k + 1))%Q
  end.

Definition exp_series (q : Q) : Q := exp_terms 20 q 1 1.

(** A sample of two values, 7 and 5, with its array at location 1. *)
Definition two_values : Sample := SUniform (mkUniformSample 2 2 1).
Definition two_values_heap : heap := {[1%positive := ArrayObj [7; 5]%Q]}.

(** ** Sample inputs *)

Definition three_values : list Q := [3; -1; 8]%Q.

(** ** The order the default sort leaves *)

(** No element is followed by one whose string image comes before its own. *)
Fixpoint string_ordered (l : list Q) : Prop :=
  match l with
  | [] => True
  | x :: l' =>
      match l' with
      | [] => True
      | y :: _ => SortCompare_lt y x = false
      end /\ string_ordered l'
  end.


(** ** Sequences of marks *)

(** A sequence of [update] calls on an EWMA, each with its instant and its
    value. *)
Fixpoint ewma_updates (marks : list (Q * Q)) (e : StandardEWMA)
  : option StandardEWMA :=
  match marks with
  | [] => Some e
  | mark :: rest =>
      match EWMA.update mark.1 mark.2 e with
      | Some e' => ewma_updates rest e'
      | None => None
      end
  end.

(** A sequence of [mark] calls on a meter. *)
Fixpoint meter_marks (marks : list (Q * Q)) (m : StandardMeter)
  : option StandardMeter :=
  match marks with
  | [] => Some m
  | mark :: rest =>
      match Meter.mark mark.1 mark.2 m with
      | Some m' => meter_marks rest m'
      | None => None
      end
  end.

(** ** More of the histogram and the timer *)

Definition Histogram_mean (g : StandardHistogram) (h : heap) : Q :=
  Uniform.mean (base (hist_sample g)) h.

Definition Histogram_sum (g : StandardHistogram) (h : heap) : Q :=
  Uniform.sum (base (hist_sample g)) h.

Definition Histogram_variance (g : StandardHistogram) (h : heap) : Q :=
  Uniform.variance (base (hist_sample g)) h.

Definition Timer_mean (t : StandardTimer) (h : heap) : Q :=
  Histogram_mean (timer_hist t) h.

Definition Timer_sum (t : StandardTimer) (h : heap) : Q :=
  Histogram_sum (timer_hist t) h.

Definition Timer_variance (t : StandardTimer) (h : heap) : Q :=
  Histogram_variance (timer_hist t) h.

(** A sequence of [update] calls on a timer, each with its instant, the value
    of [Math.random()] and the duration. *)
Fixpoint timer_updates (Math_exp : Q -> Q) (ops : list (Q * Q * Q))
  (t : StandardTimer) (h : heap) : option (StandardTimer * heap) :=
  match ops with
  | [] => Some (t, h)
  | op :: rest =>
      match Timer.update Math_exp op.1.1 op.1.2 op.2 t h with
      | Some (t', h') => timer_updates Math_exp rest t' h'
      | None => None
      end
  end.

(** ** Counter *)

Record StandardCounter : Type := mkCounter {
  counter_count : Q
}.

Module Counter.

Definition new : StandardCounter := mkCounter 0.

Definition clear (c : StandardCounter) : StandardCounter := mkCounter 0.

Definition count (c : StandardCounter) : Q := counter_count c.

(** [inc(i)]; the argument defaults to 1. *)
Definition inc (i : option Q) (c : StandardCounter) : StandardCounter :=
  mkCounter (counter_count c + default 1%Q i)%Q.

(** [dec(i)] is [this.inc(-i)]; the argument defaults to 1. *)
Definition dec (i : option Q) (c : StandardCounter) : StandardCounter :=
  inc (Some (- default 1%Q i)%Q) c.

End Counter.

(** The calls that step a counter. *)
Inductive counter_call : Type :=
| CInc (i : option Q)
| CDec (i : option Q).

Definition counter_step (c : StandardCounter) (call : counter_call)
  : StandardCounter :=
  match call with
  | CInc i => Counter.inc i c
  | CDec i => Counter.dec i c
  end.

(** The amount a call adds to the count. *)
Definition counter_delta (call : counter_call) : Q :=
  match call with
  | CInc i => default 1%Q i
  | CDec i => (- default 1%Q i)%Q
  end.

(** ** Registry *)

(** The classes of metric objects. *)
Inductive metric_class : Type :=
| CStandardCounter | CNullCounter
| CStandardGauge | CFunctionalGauge | CNullGauge
| CStandardHealthcheck | CNullHealthcheck
| CStandardHistogram | CNullHistogram
| CStandardMeter | CNullMeter
| CStandardTimer | CNullTimer.

(** A metric object as the registry sees it: its identity (the [id] that
    [BaseMetric] draws from its static counter) and its class. *)
Record MetricRef : Type := mkMetricRef {
  metric_id : nat;
  class_of : metric_class
}.

Record Registration : Type := mkRegistration {
  metricRef : MetricRef;
  reg_name : string
}.

(** [BaseMetric.COUNTER] and the module variable [_useNullMetrics]. *)
Record Globals : Type := mkGlobals {
  COUNTER : nat;
  _useNullMetrics : bool
}.

Module Registry.

Definition isCounter (m : MetricRef) : bool :=
  match class_of m with CStandardCounter => true | _ => false end.

Definition isGauge (m : MetricRef) : bool :=
  match class_of m with CStandardGauge | CFunctionalGauge => true | _ => false end.

Definition isHealthcheck (m : MetricRef) : bool :=
  match class_of m with CStandardHealthcheck => true | _ => false end.

Definition isHistogram (m : MetricRef) : bool :=
  match class_of m with CStandardHistogram => true | _ => false end.

Definition isMeter (m : MetricRef) : bool :=
  match class_of m with CStandardMeter => true | _ => false end.

Definition isTimer (m : MetricRef) : bool :=
  match class_of m with CStandardTimer => true | _ => false end.

Definition getCounterList (metrics : list Registration) : list MetricRef :=
  map metricRef (List.filter (fun r => isCounter (metricRef r)) metrics).

Definition getGaugeList (metrics : list Registration) : list MetricRef :=
  map metricRef (List.filter (fun r => isGauge (metricRef r)) metrics).

Definition getHealthcheckList (metrics : list Registration) : list MetricRef :=
  map metricRef (List.filter (fun r => isHealthcheck (metricRef r)) metrics).

Definition getHistogramList (metrics : list Registration) : list MetricRef :=
  map metricRef (List.filter (fun r => isHistogram (metricRef r)) metrics).

Definition getMeterList (metrics : list Registration) : list MetricRef :=
  map metricRef (List.filter (fun r => isMeter (metricRef r)) metrics).

Definition getTimerList (metrics : list Registration) : list MetricRef :=
  map metricRef (List.filter (fun r => isTimer (metricRef r)) metrics).

Definition getMetricList (metrics : list Registration) : list MetricRef :=
  map metricRef metrics.

Definition getByName (n : string) (metrics : list Registration) : list MetricRef :=
  map metricRef (List.filter (fun r => String.eqb (reg_name r) n) metrics).

(** [indexOf(metric, 0)]: the first position holding that very object. *)
Fixpoint indexOf (m : MetricRef) (l : list MetricRef) : option nat :=
  match l with
  | [] => None
  | x :: l' =>
      if (metric_id x =? metric_id m)%nat then Some O
      else match indexOf m l' with Some i => Some (S i) | None => None end
  end.

(** One turn of the [forEach] of [removeMetrics]. *)
Definition remove_one (metrics : list Registration) (metric : MetricRef)
  : list Registration :=
  match indexOf metric (map metricRef metrics) with
  | Some index => delete index metrics
  | None => metrics
  end.

Definition removeMetrics (n : string) (metrics : list Registration)
  : list Registration :=
  foldl remove_one metrics (getByName n metrics).

(** [registerMetric(metric)], with [metric_name] the name [metric.getName()]
    returns at the call. *)
Definition registerMetric (metric : MetricRef) (metric_name : string)
  (metrics : list Registration) : list Registration :=
  if negb (length (getByName metric_name metrics) =? 0)%nat then metrics
  else metrics ++ [mkRegistration metric metric_name].

(** [new C(name, desc)]: the object takes the next id. *)
Definition construct (c : metric_class) (g : Globals) : MetricRef * Globals :=
  (mkMetricRef (COUNTER g) c, mkGlobals (S (COUNTER g)) (_useNullMetrics g)).

(** The body shared by the six [getOrRegister...] methods, for the standard
    and the null class of the kind. *)
Definition getOrRegister (standard null : metric_class) (n : string)
  (g : Globals) (metrics : list Registration)
  : option MetricRef * Globals * list Registration :=
  let hasName := negb (length (getByName n metrics) =? 0)%nat in
  let '(g1, metrics1) :=
    if negb hasName && negb (_useNullMetrics g) then
      let '(m, g') := construct standard g in (g', registerMetric m n metrics)
    else (g, metrics) in
  let '(g2, metrics2) :=
    if negb hasName && _useNullMetrics g1 then
      let '(m, g') := construct null g1 in (g', registerMetric m n metrics1)
    else (g1, metrics1) in
  (head (getByName n metrics2), g2, metrics2).

Definition getOrRegisterCounter := getOrRegister CStandardCounter CNullCounter.
Definition getOrRegisterGauge := getOrRegister CStandardGauge CNullGauge.
Definition getOrRegisterMeter := getOrRegister CStandardMeter CNullMeter.
Definition getOrRegisterTimer := getOrRegister CStandardTimer CNullTimer.

(** [getOrRegisterHistogram(name, s)] and [getOrRegisterHealthcheck(name, fn)]
    throw when the name is not registered and the second argument is
    [undefined] ([given = false]); [None] stands for the exception. *)
Definition getOrRegisterWith (standard null : metric_class) (n : string)
  (given : bool) (g : Globals) (metrics : list Registration)
  : option (option MetricRef * Globals * list Registration) :=
  let hasName := negb (length (getByName n metrics) =? 0)%nat in
  if negb hasName && negb given then None
  else Some (getOrRegister standard null n g metrics).

Definition getOrRegisterHistogram :=
  getOrRegisterWith CStandardHistogram CNullHistogram.
Definition getOrRegisterHealthcheck :=
  getOrRegisterWith CStandardHealthcheck CNullHealthcheck.

End Registry.

(** The calls that change a registry. *)
Inductive registry_call : Type :=
| RRegisterMetric (metric : MetricRef) (metric_name : string)
| RRemoveMetrics (n : string)
| RGetOrRegister (standard null : metric_class) (n : string) (given : bool)
| RUseNullMetrics (t : bool).

Definition registry_step (st : Globals * list Registration) (call : registry_call)
  : Globals * list Registration :=
  match call with
  | RRegisterMetric metric metric_name =>
      (st.1, Registry.registerMetric metric metric_name st.2)
  | RRemoveMetrics n => (st.1, Registry.removeMetrics n st.2)
  | RGetOrRegister standard null n given =>
      match Registry.getOrRegisterWith standard null n given st.1 st.2 with
      | Some r => (r.1.2, r.2)
      | None => st
      end
  | RUseNullMetrics t => (mkGlobals (COUNTER st.1) t, st.2)
  end.

(** A registry holding a gauge under the name "load". *)
Definition load_registry : list Registration :=
  [mkRegistration (mkMetricRef 0 CStandardGauge) "load"].

(** The classes of the no-op metrics. *)
Definition is_null_class (c : metric_class) : bool :=
  match c with
  | CNullCounter | CNullGauge | CNullHealthcheck | CNullHistogram | CNullMeter
  | CNullTimer => true
  | _ => false
  end.

(** * Properties *)

(** ** Comparisons and floors on rationals *)

Lemma Qltb_lt (x y : Q) : Qltb x y = true <-> (x < y)%Q.
Proof.
  unfold Qltb. rewrite negb_true_iff, <- not_true_iff_false, Qle_bool_iff.
  split; [apply Qnot_le_lt | apply Qlt_not_le].
Qed.

Lemma Qltb_ge (x y : Q) : Qltb x y = false <-> (y <= x)%Q.
Proof.
  unfold Qltb. rewrite negb_false_iff, Qle_bool_iff. tauto.
Qed.

Lemma Qfloor_pred (p : Q) : (Qfloor (p - 1) < Qfloor p)%Z.
Proof.
  rewrite Zlt_Qlt.
  pose proof (Qfloor_le (p - 1)) as Hlo.
  pose proof (Qlt_floor p) as Hhi.
  rewrite inject_Z_plus in Hhi. change (inject_Z 1) with 1%Q in Hhi. lra.
Qed.

Lemma Qfloor_unit (u : Q) : (0 <= u)%Q -> (u < 1)%Q -> Qfloor u = 0%Z.
Proof.
  intros H0 H1.
  assert (Hlo : (0 <= Qfloor u)%Z) by (change 0%Z with (Qfloor 0); now apply Qfloor_resp_le).
  assert (Hhi : (Qfloor u < 1)%Z).
  { rewrite Zlt_Qlt. apply Qle_lt_trans with u; [apply Qfloor_le | exact H1]. }
  lia.
Qed.

(** ** Statistics over an empty array *)

(** C5: on the empty sequence of retained values every statistics helper
    returns zero: [sampleMin], [sampleMax], [sampleMean], [sampleVariance] and
    (for a square root with [sqrt 0 = 0]) [sampleStdDev] return 0, and
    [samplePercentile] and [samplePercentiles] return 0 for every requested
    percentile; the array is left as it is. *)
Theorem C5_empty_sample_statistics (Math_sqrt : Q -> Q) (p : Q) (ps : list Q) :
  (Math_sqrt 0 == 0)%Q ->
  sampleMin [] = 0%Q /\
  sampleMax [] = 0%Q /\
  sampleMean [] = 0%Q /\
  sampleVariance [] = 0%Q /\
  (sampleStdDev Math_sqrt [] == 0)%Q /\
  samplePercentile [] p = ([], Fin 0) /\
  samplePercentiles [] ps = ([], replicate (length ps) (Fin 0)).
Proof.
  intros Hsqrt. repeat split; try reflexivity.
  - exact Hsqrt.
  - unfold samplePercentiles. simpl. f_equal.
    induction ps as [| q ps IH]; simpl; [reflexivity | now rewrite IH].
Qed.

Lemma C5_empty_sample_statistics_witness :
  (sqrt_trunc 0 == 0)%Q /\
  sampleMin [] = 0%Q /\
  sampleMax [] = 0%Q /\
  sampleMean [] = 0%Q /\
  sampleVariance [] = 0%Q /\
  (sampleStdDev sqrt_trunc [] == 0)%Q /\
  samplePercentile [] (1 # 2) = ([], Fin 0) /\
  samplePercentiles [] [1 # 2; 3 # 4] = ([], replicate 2 (Fin 0)).
Proof.
  split; [reflexivity |].
  apply (C5_empty_sample_statistics sqrt_trunc (1 # 2) [1 # 2; 3 # 4]).
  reflexivity.
Defined.

(** ** Percentiles *)

(** C1: [samplePercentile] departs from the percentile of the specification.
    On [[9; 10]] with [p = 1] the array is ordered by the decimal strings
    ("10" before "9"), so the last element is 9 and not the maximum 10.  On
    [[1; 2; 3; 4]] with [p = 1/2] the position 2.5 itself is used as index, the
    reads give [undefined] and the score is [NaN], not 2.5. *)
Theorem C1_percentile_string_order_and_fractional_index :
  samplePercentile [9; 10]%Q 1 = ([10; 9]%Q, Fin 9) /\
  (percentile_spec [9; 10]%Q 1 == 10)%Q /\
  samplePercentile [1; 2; 3; 4]%Q (1 # 2) = ([1; 2; 3; 4]%Q, NaN) /\
  (percentile_spec [1; 2; 3; 4]%Q (1 # 2) == 5 # 2)%Q.
Proof.
  repeat split; vm_compute; reflexivity.
Qed.

(** ** EWMA *)

(** Before the first commitment [rate] returns at its first test. *)
Lemma rate_not_initialised (now : Q) (e : StandardEWMA) :
  ewma_init e = false -> EWMA.rate now e = Some (ewma_ewma e, e).
Proof.
  intros Hinit. unfold EWMA.rate. rewrite Hinit, orb_true_r. reflexivity.
Qed.

Lemma periods_at_decay (now : Q) (e : StandardEWMA) :
  ~ (ewma_period e == 0)%Q ->
  (periods_at now (EWMA.decay e) == periods_at now e - 1)%Q.
Proof.
  intros Hp. unfold periods_at. simpl. field. exact Hp.
Qed.

Lemma periods_at_commit (now : Q) (e : StandardEWMA) (seconds : Q) :
  ~ (ewma_period e == 0)%Q ->
  (periods_at now (EWMA.commit e seconds) == periods_at now e - 1)%Q.
Proof.
  intros Hp. unfold periods_at. simpl. field. exact Hp.
Qed.

Lemma periods_at_first_commit (now : Q) (e : StandardEWMA) (seconds : Q) :
  ~ (ewma_period e == 0)%Q ->
  (periods_at now (EWMA.first_commit e seconds) == periods_at now e - 1)%Q.
Proof.
  intros Hp. unfold periods_at. simpl. field. exact Hp.
Qed.

Lemma idle_loop_exit (fuel : nat) (e : StandardEWMA) (periods : Q) :
  Qle_bool 1 periods = false -> EWMA.idle_loop fuel e periods = Some e.
Proof.
  intros Hlt. destruct fuel; simpl; now rewrite Hlt.
Qed.

(** The loop ends when the fuel covers the whole periods left, and it leaves
    less than one period between [ts] and [now]. *)
Lemma idle_loop_total (now : Q) (fuel : nat) :
  forall (e : StandardEWMA) (periods : Q),
    ~ (ewma_period e == 0)%Q ->
    (periods_at now e == periods)%Q ->
    (Qfloor periods <= Z.of_nat fuel)%Z ->
    exists e',
      EWMA.idle_loop fuel e periods = Some e' /\
      ewma_period e' = ewma_period e /\
      ewma_init e' = ewma_init e /\
      (periods_at now e' < 1)%Q.
Proof.
  induction fuel as [| k IH]; intros e periods Hp Hat Hfuel; simpl.
  - destruct (Qle_bool 1 periods) eqn:Hge.
    + apply Qle_bool_iff in Hge. apply Qfloor_resp_le in Hge.
      change (Qfloor 1) with 1%Z in Hge. simpl in Hfuel. lia.
    + exists e. repeat split. rewrite Hat. apply Qltb_lt.
      unfold Qltb. now rewrite Hge.
  - destruct (Qle_bool 1 periods) eqn:Hge.
    + destruct (IH (EWMA.decay e) (periods - 1)%Q) as (e' & Hrun & Hper & Hinit & Hlt).
      * exact Hp.
      * rewrite periods_at_decay by exact Hp. now rewrite Hat.
      * pose proof (Qfloor_pred periods). lia.
      * exists e'. repeat split; assumption.
    + exists e. repeat split. rewrite Hat. apply Qltb_lt.
      unfold Qltb. now rewrite Hge.
Qed.

(** [advance] returns for every state with a non-zero period. *)
Lemma advance_total (now : Q) (e : StandardEWMA) :
  ~ (ewma_period e == 0)%Q ->
  exists e',
    EWMA.advance e (periods_at now e) = Some e' /\
    ewma_period e' = ewma_period e /\
    (ewma_init e = true -> ewma_init e' = true) /\
    (periods_at now e' < 1)%Q.
Proof.
  intros Hp. unfold EWMA.advance.
  set (seconds := (ewma_period e / 1000)%Q).
  destruct (ewma_init e) eqn:Hinit; simpl.
  - destruct (Qle_bool 1 (periods_at now e)) eqn:Hge.
    + destruct (idle_loop_total now (Z.to_nat (Qfloor (periods_at now e - 1)))
                  (EWMA.commit e seconds) (periods_at now e - 1)%Q)
        as (e' & Hrun & Hper & Hi & Hlt).
      * exact Hp.
      * now apply periods_at_commit.
      * lia.
      * exists e'. repeat split; try assumption. intros _. now rewrite Hi.
    + destruct (idle_loop_total now (Z.to_nat (Qfloor (periods_at now e)))
                  e (periods_at now e)) as (e' & Hrun & Hper & Hi & Hlt).
      * exact Hp.
      * reflexivity.
      * lia.
      * exists e'. repeat split; try assumption. intros _. now rewrite Hi, Hinit.
  - destruct (Qle_bool 1 (periods_at now e - 1)) eqn:Hge.
    + destruct (idle_loop_total now (Z.to_nat (Qfloor (periods_at now e - 1 - 1)))
                  (EWMA.commit (EWMA.first_commit e seconds) seconds)
                  (periods_at now e - 1 - 1)%Q)
        as (e' & Hrun & Hper & Hi & Hlt).
      * exact Hp.
      * rewrite periods_at_commit by exact Hp.
        now rewrite periods_at_first_commit by exact Hp.
      * lia.
      * exists e'. repeat split; try assumption. discriminate.
    + destruct (idle_loop_total now (Z.to_nat (Qfloor (periods_at now e - 1)))
                  (EWMA.first_commit e seconds) (periods_at now e - 1)%Q)
        as (e' & Hrun & Hper & Hi & Hlt).
      * exact Hp.
      * now apply periods_at_first_commit.
      * lia.
      * exists e'. repeat split; try assumption. discriminate.
Qed.

Lemma update_total (now i : Q) (e : StandardEWMA) :
  ~ (ewma_period e == 0)%Q -> exists e', EWMA.update now i e = Some e'.
Proof.
  intros Hp. unfold EWMA.update. fold (periods_at now e).
  destruct (negb (ewma_init e) && Qltb (periods_at now e) 1); [eauto |].
  destruct (Qltb (periods_at now e) 1); [eauto |].
  destruct (advance_total now e Hp) as (e' & -> & _). eauto.
Qed.

(** C9: for an EWMA with a non-zero period, [rate()] returns, and a second
    [rate()] at the same instant returns the same rate and leaves the state
    the first call produced as it is. *)
Theorem C9_rate_idempotent_at_same_instant (now : Q) (e : StandardEWMA) :
  ~ (ewma_period e == 0)%Q ->
  exists (r : Q) (e' : StandardEWMA),
    EWMA.rate now e = Some (r, e') /\
    EWMA.rate now e' = Some (r, e').
Proof.
  intros Hp. unfold EWMA.rate at 1. fold (periods_at now e).
  destruct (Qltb (periods_at now e) 1 || negb (ewma_init e)) eqn:Hearly.
  - exists (ewma_ewma e), e. split; [reflexivity |].
    unfold EWMA.rate. fold (periods_at now e). now rewrite Hearly.
  - destruct (advance_total now e Hp) as (e' & -> & Hper & Hinit & Hlt).
    exists (ewma_ewma e'), e'. split; [reflexivity |].
    unfold EWMA.rate. fold (periods_at now e').
    apply Qltb_lt in Hlt. now rewrite Hlt.
Qed.

Lemma C9_rate_idempotent_at_same_instant_witness :
  exists (r : Q) (e' : StandardEWMA),
    EWMA.rate 12000 (mkEWMA (1 # 10) 5000 0 (3 # 5) 2 true) = Some (r, e') /\
    EWMA.rate 12000 e' = Some (r, e').
Proof.
  apply (C9_rate_idempotent_at_same_instant 12000
           (mkEWMA (1 # 10) 5000 0 (3 # 5) 2 true)).
  simpl. intros H. discriminate H.
Defined.

(** C3: an EWMA created at [t0] with any [alpha] and the period of 5000 ms
    takes a mark of 3 inside its first period; [rate()] then returns 0 at
    every later instant and changes nothing, so it returns neither 3/5 after
    one period nor [3/5 * (1 - alpha)] after two: [rate] returns at
    [!this.#init], and the first commitment is made by [update] only, as the
    last part shows. *)
Theorem C3_rate_alone_never_commits (alpha t0 d : Q) :
  (0 <= d)%Q -> (d < 5000)%Q ->
  exists e1 : StandardEWMA,
    EWMA.update (t0 + d) 3 (EWMA.new alpha 5000 t0) = Some e1 /\
    (ewma_sample e1 == 3)%Q /\
    (forall now : Q, EWMA.rate now e1 = Some (0%Q, e1)) /\
    (exists e2 : StandardEWMA,
        EWMA.update (t0 + 5000) 0 e1 = Some e2 /\
        (ewma_ewma e2 == 3 # 5)%Q).
Proof.
  intros Hd0 Hd1. exists (mkEWMA alpha 5000 t0 0 (0 + 3) false).
  split; [| split; [| split]].
  - unfold EWMA.update, EWMA.new. simpl.
    assert (Hlt : Qltb ((t0 + d - t0) / 5000) 1 = true).
    { apply Qltb_lt. apply Qlt_shift_div_r; [reflexivity | lra]. }
    now rewrite Hlt.
  - reflexivity.
  - intros now. now apply rate_not_initialised.
  - unfold EWMA.update. simpl.
    assert (Hge : Qltb ((t0 + 5000 - t0) / 5000) 1 = false).
    { apply Qltb_ge. apply Qle_shift_div_l; [reflexivity | lra]. }
    rewrite Hge. unfold EWMA.advance. simpl.
    match goal with
    | |- context [Qle_bool 1 ?x] => assert (Hlt : Qle_bool 1 x = false)
    end.
    { apply not_true_iff_false. rewrite Qle_bool_iff. intros H.
      assert (((t0 + 5000 - t0) / 5000 == 1)%Q) by (field).
      lra. }
    rewrite Hlt, idle_loop_exit by exact Hlt.
    eexists. split; [reflexivity |]. simpl. field.
Qed.

Lemma C3_rate_alone_never_commits_witness :
  exists e1 : StandardEWMA,
    EWMA.update (0 + 1000) 3 (EWMA.new (1 # 10) 5000 0) = Some e1 /\
    (ewma_sample e1 == 3)%Q /\
    (forall now : Q, EWMA.rate now e1 = Some (0%Q, e1)) /\
    (exists e2 : StandardEWMA,
        EWMA.update (0 + 5000) 0 e1 = Some e2 /\
        (ewma_ewma e2 == 3 # 5)%Q).
Proof.
  apply (C3_rate_alone_never_commits (1 # 10) 0 1000); [discriminate | reflexivity].
Defined.

(** ** The heap *)

Lemma read_array_lookup (h : heap) (l : loc) (vs : list Q) :
  h !! l = Some (ArrayObj vs) -> read_array h l = vs.
Proof. intros H. unfold read_array. now rewrite H. Qed.

Lemma write_array_lookup (h : heap) (l : loc) (vs vs' : list Q) :
  h !! l = Some (ArrayObj vs) -> write_array h l vs' = <[l := ArrayObj vs']> h.
Proof. intros H. unfold write_array. now rewrite H. Qed.

Lemma alloc_fresh (h : heap) (o : object) : h !! (alloc h o).1 = None.
Proof.
  unfold alloc. simpl. apply not_elem_of_dom. apply is_fresh.
Qed.

Lemma alloc_heap (h : heap) (o : object) :
  (alloc h o).2 = <[(alloc h o).1 := o]> h.
Proof. reflexivity. Qed.

(** ** UniformSample *)

Lemma Array_length_lt (vs : list Q) (R : nat) :
  (Array_length vs < inject_Z (Z.of_nat R))%Q <-> length vs < R.
Proof. unfold Array_length. rewrite <- Zlt_Qlt. lia. Qed.

(** One [update]: the count grows by one, and the array of the sample
    receives the value at its end while it is shorter than the reservoir
    size; afterwards the value takes one slot or is dropped. *)
Lemma update_step (u x : Q) (s : UniformSample) (h : heap) (vs : list Q) :
  h !! _values s = Some (ArrayObj vs) ->
  exists vs' : list Q,
    Uniform.update u x s h =
      (mkUniformSample (reservoirSize s) (_count s + 1) (_values s),
       <[_values s := ArrayObj vs']> h) /\
    (((Array_length vs < reservoirSize s)%Q /\ vs' = vs ++ [x]) \/
     ((reservoirSize s <= Array_length vs)%Q /\
      (vs' = vs \/ exists r : nat, r < length vs /\ vs' = <[r := x]> vs))).
Proof.
  intros Hl.
  unfold Uniform.update, Uniform.size. cbn [reservoirSize _count _values].
  rewrite (read_array_lookup _ _ _ Hl).
  destruct (Qltb (Array_length vs) (reservoirSize s)) eqn:Hroom.
  - exists (vs ++ [x]). rewrite (write_array_lookup _ _ _ _ Hl).
    split; [reflexivity |]. left. split; [now apply Qltb_lt | reflexivity].
  - apply Qltb_ge in Hroom.
    destruct (Qltb (inject_Z (Qfloor (u * inject_Z (_count s + 1)))) (Array_length vs))
      eqn:Hr.
    + rewrite (write_array_lookup _ _ _ _ Hl). unfold Array_set.
      destruct (0 <=? Qfloor (u * inject_Z (_count s + 1)))%Z eqn:Hpos.
      * eexists. split; [reflexivity |]. right. split; [exact Hroom |].
        right. eexists. split; [| reflexivity].
        apply Qltb_lt in Hr. unfold Array_length in Hr. rewrite <- Zlt_Qlt in Hr.
        apply Z.leb_le in Hpos. lia.
      * exists vs. split; [reflexivity |]. right. split; [exact Hroom | now left].
    + exists vs. rewrite insert_id by exact Hl.
      split; [reflexivity |]. right. split; [exact Hroom | now left].
Qed.

Lemma run_updates_snoc (ops : list (Q * Q)) (op : Q * Q) (st : UniformSample * heap) :
  run_updates (ops ++ [op]) st =
    Uniform.update op.1 op.2 (run_updates ops st).1 (run_updates ops st).2.
Proof. unfold run_updates. now rewrite foldl_app. Qed.

(** While the reservoir has room every value is appended. *)
Lemma run_updates_under_capacity (ops : list (Q * Q)) :
  forall (s : UniformSample) (h : heap) (vs : list Q),
    h !! _values s = Some (ArrayObj vs) ->
    (inject_Z (Z.of_nat (length vs + length ops)) <= reservoirSize s)%Q ->
    run_updates ops (s, h) =
      (mkUniformSample (reservoirSize s) (_count s + Z.of_nat (length ops)) (_values s),
       <[_values s := ArrayObj (vs ++ ops.*2)]> h).
Proof.
  induction ops as [| [u x] ops IH]; intros s h vs Hl Hcap.
  - simpl. rewrite app_nil_r, insert_id by exact Hl.
    rewrite Z.add_0_r. now destruct s.
  - simpl in *.
    destruct (update_step u x s h vs Hl) as (vs' & Hup & [[_ ->] | [Hfull _]]).
    + rewrite Hup.
      rewrite (IH _ _ (vs ++ [x])); simpl.
      * rewrite insert_insert_eq, <- app_assoc. simpl.
        do 2 f_equal. lia.
      * apply lookup_insert_eq.
      * rewrite length_app. simpl.
        replace (length vs + 1 + length ops) with (length vs + S (length ops)) by lia.
        exact Hcap.
    + exfalso. unfold Array_length in Hfull.
      assert (Hlt : (inject_Z (Z.of_nat (length vs))
                     < inject_Z (Z.of_nat (length vs + S (length ops))))%Q).
      { rewrite <- Zlt_Qlt. lia. }
      lra.
Qed.

(** With a reservoir size that is a natural number, the array never grows
    beyond it, and the count records every call. *)
Lemma run_updates_bounded (R : nat) (ops : list (Q * Q)) :
  forall (s : UniformSample) (h : heap) (vs : list Q),
    h !! _values s = Some (ArrayObj vs) ->
    reservoirSize s = inject_Z (Z.of_nat R) ->
    length vs <= R ->
    exists vs' : list Q,
      run_updates ops (s, h) =
        (mkUniformSample (reservoirSize s) (_count s + Z.of_nat (length ops)) (_values s),
         <[_values s := ArrayObj vs']> h) /\
      length vs' = Nat.min (length vs + length ops) R.
Proof.
  induction ops as [| [u x] ops IH]; intros s h vs Hl HR Hle.
  - exists vs. simpl. rewrite insert_id by exact Hl. rewrite Z.add_0_r.
    split; [now destruct s | lia].
  - simpl.
    destruct (update_step u x s h vs Hl) as (vs1 & Hup & Hcase).
    rewrite Hup.
    assert (Hlen1 : length vs1 = Nat.min (length vs + 1) R).
    { destruct Hcase as [[Hroom ->] | [Hfull Hcase]].
      - rewrite HR in Hroom. apply Array_length_lt in Hroom.
        rewrite length_app. simpl. lia.
      - assert (length vs = R).
        { rewrite HR in Hfull. unfold Array_length in Hfull.
          rewrite <- Zle_Qle in Hfull. lia. }
        destruct Hcase as [-> | (r & _ & ->)]; [| rewrite length_insert]; lia. }
    destruct (IH (mkUniformSample (reservoirSize s) (_count s + 1) (_values s))
                (<[_values s := ArrayObj vs1]> h) vs1) as (vs' & Hrun & Hlen).
    + simpl. apply lookup_insert_eq.
    + exact HR.
    + lia.
    + exists vs'. simpl in Hrun. rewrite Hrun. rewrite insert_insert_eq.
      split; [do 2 f_equal; lia | lia].
Qed.

Lemma new_uniform (R : Q) (h : heap) :
  exists l : loc,
    h !! l = None /\
    Uniform.new R h = (mkUniformSample R 0 l, <[l := ArrayObj []]> h).
Proof.
  exists (alloc h (ArrayObj [])).1. split; [apply alloc_fresh | reflexivity].
Qed.

(** C6: [N] updates into a new UniformSample whose reservoir size is at least
    [N] leave [size() = N] and [count() = N], and [values()] returns the
    updated values, in the order of the calls; so it holds exactly the
    inputs. *)
Theorem C6_uniform_under_capacity (R : Q) (ops : list (Q * Q)) (h : heap) :
  (inject_Z (Z.of_nat (length ops)) <= R)%Q ->
  Uniform.size (uniform_after R ops h).1 (uniform_after R ops h).2
    = inject_Z (Z.of_nat (length ops)) /\
  Uniform.count (uniform_after R ops h).1 = Z.of_nat (length ops) /\
  values_of (uniform_after R ops h) = ops.*2 /\
  (forall x : Q, x ∈ values_of (uniform_after R ops h) <-> x ∈ ops.*2).
Proof.
  intros Hcap.
  destruct (new_uniform R h) as (l & Hfresh & Hnew).
  assert (Hst : uniform_after R ops h =
                  (mkUniformSample R (Z.of_nat (length ops)) l,
                   <[l := ArrayObj ops.*2]> h)).
  { unfold uniform_after. rewrite Hnew.
    rewrite (run_updates_under_capacity ops _ _ []); simpl.
    - now rewrite insert_insert_eq.
    - apply lookup_insert_eq.
    - exact Hcap. }
  rewrite Hst. cbn [fst snd].
  set (s := mkUniformSample R (Z.of_nat (length ops)) l).
  set (h' := <[l := ArrayObj ops.*2]> h).
  assert (Hl : h' !! _values s = Some (ArrayObj ops.*2)) by apply lookup_insert_eq.
  assert (Hvals : values_of (s, h') = ops.*2).
  { unfold values_of, Uniform.values. cbn [fst snd]. rewrite alloc_heap.
    rewrite (read_array_lookup _ _ _ Hl).
    apply read_array_lookup, lookup_insert_eq. }
  split; [| split; [| split]].
  - unfold Uniform.size. rewrite (read_array_lookup _ _ _ Hl).
    unfold Array_length. now rewrite length_fmap.
  - reflexivity.
  - exact Hvals.
  - intros x. now rewrite Hvals.
Qed.

Lemma C6_uniform_under_capacity_witness :
  Uniform.size (uniform_after 2 [(1 # 2, 7); (1 # 3, 5)]%Q ∅).1
    (uniform_after 2 [(1 # 2, 7); (1 # 3, 5)]%Q ∅).2 = inject_Z (Z.of_nat 2) /\
  Uniform.count (uniform_after 2 [(1 # 2, 7); (1 # 3, 5)]%Q ∅).1 = Z.of_nat 2 /\
  values_of (uniform_after 2 [(1 # 2, 7); (1 # 3, 5)]%Q ∅) = [7; 5]%Q /\
  (forall x : Q,
      x ∈ values_of (uniform_after 2 [(1 # 2, 7); (1 # 3, 5)]%Q ∅) <-> x ∈ [7; 5]%Q).
Proof.
  apply (C6_uniform_under_capacity 2 [(1 # 2, 7); (1 # 3, 5)]%Q ∅).
  vm_compute. discriminate.
Defined.

(** The state a new sample of size [R] reaches is known up to the contents of
    its array, whose length is the smaller of the number of calls and [R]. *)
Lemma uniform_after_bounded (R : nat) (ops : list (Q * Q)) (h : heap) :
  exists (l : loc) (vs : list Q),
    uniform_after (inject_Z (Z.of_nat R)) ops h =
      (mkUniformSample (inject_Z (Z.of_nat R)) (Z.of_nat (length ops)) l,
       <[l := ArrayObj vs]> h) /\
    length vs = Nat.min (length ops) R.
Proof.
  destruct (new_uniform (inject_Z (Z.of_nat R)) h) as (l & Hfresh & Hnew).
  destruct (run_updates_bounded R ops
              (mkUniformSample (inject_Z (Z.of_nat R)) 0 l)
              (<[l := ArrayObj []]> h) [])
    as (vs & Hrun & Hlen).
  - apply lookup_insert_eq.
  - reflexivity.
  - simpl. lia.
  - exists l, vs. unfold uniform_after. rewrite Hnew, Hrun. simpl.
    rewrite insert_insert_eq. split; [reflexivity | exact Hlen].
Qed.

Lemma retained_uniform_after (R : nat) (ops : list (Q * Q)) (h : heap) :
  length (retained (uniform_after (inject_Z (Z.of_nat R)) ops h))
    = Nat.min (length ops) R.
Proof.
  destruct (uniform_after_bounded R ops h) as (l & vs & -> & Hlen).
  unfold retained. cbn [fst snd _values].
  now rewrite (read_array_lookup _ _ vs) by apply lookup_insert_eq.
Qed.

(** C7: [N > R] updates into a new UniformSample of reservoir size [R] (a
    natural number) leave [size() = R] and [count() = N]; after every prefix
    of the calls at most [R] values are retained; and a call that finds [R]
    retained values leaves them as they are (the value is dropped) or
    replaces exactly one slot by the new value. *)
Theorem C7_uniform_over_capacity (R : nat) (ops : list (Q * Q)) (h : heap) :
  R < length ops ->
  Uniform.size (uniform_after (inject_Z (Z.of_nat R)) ops h).1
    (uniform_after (inject_Z (Z.of_nat R)) ops h).2 = inject_Z (Z.of_nat R) /\
  Uniform.count (uniform_after (inject_Z (Z.of_nat R)) ops h).1
    = Z.of_nat (length ops) /\
  (forall k : nat,
      length (retained (uniform_after (inject_Z (Z.of_nat R)) (take k ops) h)) <= R) /\
  (forall (k : nat) (u x : Q),
      ops !! k = Some (u, x) ->
      length (retained (uniform_after (inject_Z (Z.of_nat R)) (take k ops) h)) = R ->
      retained (uniform_after (inject_Z (Z.of_nat R)) (take (S k) ops) h)
        = retained (uniform_after (inject_Z (Z.of_nat R)) (take k ops) h) \/
      exists r : nat,
        r < R /\
        retained (uniform_after (inject_Z (Z.of_nat R)) (take (S k) ops) h)
          = <[r := x]> (retained (uniform_after (inject_Z (Z.of_nat R)) (take k ops) h))).
Proof.
  intros HN. split; [| split; [| split]].
  - pose proof (retained_uniform_after R ops h) as Hlen.
    unfold Uniform.size, Array_length. unfold retained in Hlen.
    rewrite Hlen. do 2 f_equal. lia.
  - destruct (uniform_after_bounded R ops h) as (l & vs & -> & _). reflexivity.
  - intros k. rewrite retained_uniform_after. lia.
  - intros k u x Hk Hfull.
    destruct (uniform_after_bounded R (take k ops) h) as (l & vs & Hst & Hlen).
    assert (Hvs : retained (uniform_after (inject_Z (Z.of_nat R)) (take k ops) h) = vs).
    { rewrite Hst. unfold retained. cbn [fst snd _values].
      apply read_array_lookup, lookup_insert_eq. }
    rewrite Hvs in *.
    rewrite (take_S_r _ _ _ Hk). unfold uniform_after in *.
    rewrite run_updates_snoc, Hst. cbn [fst snd].
    destruct (update_step u x
                (mkUniformSample (inject_Z (Z.of_nat R))
                   (Z.of_nat (length (take k ops))) l)
                (<[l := ArrayObj vs]> h) vs) as (vs' & -> & Hcase).
    { apply lookup_insert_eq. }
    unfold retained. cbn [fst snd _values reservoirSize] in *.
    rewrite (read_array_lookup _ _ vs') by apply lookup_insert_eq.
    destruct Hcase as [[Hroom _] | [_ [-> | (r & Hr & ->)]]].
    + apply Array_length_lt in Hroom. lia.
    + now left.
    + right. exists r. split; [lia | reflexivity].
Qed.

Lemma C7_uniform_over_capacity_witness :
  Uniform.size (uniform_after (inject_Z (Z.of_nat 1)) [(1 # 2, 7); (1 # 3, 5)]%Q ∅).1
    (uniform_after (inject_Z (Z.of_nat 1)) [(1 # 2, 7); (1 # 3, 5)]%Q ∅).2
    = inject_Z (Z.of_nat 1) /\
  Uniform.count (uniform_after (inject_Z (Z.of_nat 1)) [(1 # 2, 7); (1 # 3, 5)]%Q ∅).1
    = Z.of_nat (length [(1 # 2, 7); (1 # 3, 5)]%Q) /\
  (forall k : nat,
      length (retained (uniform_after (inject_Z (Z.of_nat 1))
                          (take k [(1 # 2, 7); (1 # 3, 5)]%Q) ∅)) <= 1) /\
  (forall (k : nat) (u x : Q),
      [(1 # 2, 7); (1 # 3, 5)]%Q !! k = Some (u, x) ->
      length (retained (uniform_after (inject_Z (Z.of_nat 1))
                          (take k [(1 # 2, 7); (1 # 3, 5)]%Q) ∅)) = 1 ->
      retained (uniform_after (inject_Z (Z.of_nat 1))
                  (take (S k) [(1 # 2, 7); (1 # 3, 5)]%Q) ∅)
        = retained (uniform_after (inject_Z (Z.of_nat 1))
                      (take k [(1 # 2, 7); (1 # 3, 5)]%Q) ∅) \/
      exists r : nat,
        r < 1 /\
        retained (uniform_after (inject_Z (Z.of_nat 1))
                    (take (S k) [(1 # 2, 7); (1 # 3, 5)]%Q) ∅)
          = <[r := x]> (retained (uniform_after (inject_Z (Z.of_nat 1))
                                    (take k [(1 # 2, 7); (1 # 3, 5)]%Q) ∅))).
Proof.
  apply (C7_uniform_over_capacity 1 [(1 # 2, 7); (1 # 3, 5)]%Q ∅).
  simpl. lia.
Defined.

(** ** The array returned by [values()] *)

Lemma read_array_same (h h' : heap) (l : loc) :
  h !! l = h' !! l -> read_array h l = read_array h' l.
Proof. intros H. unfold read_array. now rewrite H. Qed.

Lemma write_array_same (h h' : heap) (l : loc) (vs : list Q) :
  h !! l = h' !! l -> write_array h l vs !! l = write_array h' l vs !! l.
Proof.
  intros H. unfold write_array. rewrite <- H.
  destruct (h !! l) as [[| ] |] eqn:Hl; rewrite ?lookup_insert_eq; congruence.
Qed.

(** A query reads and writes the heap at the array of the sample only. *)
Lemma ask_same (Math_sqrt : Q -> Q) (q : query) (s : Sample) (h h' : heap) :
  h !! _values (base s) = h' !! _values (base s) ->
  (ask Math_sqrt q s h).1 = (ask Math_sqrt q s h').1 /\
  (ask Math_sqrt q s h).2 !! _values (base s)
    = (ask Math_sqrt q s h').2 !! _values (base s).
Proof.
  intros H. pose proof (read_array_same _ _ _ H) as Hread.
  destruct q; cbn [ask fst snd];
    unfold Uniform.max, Uniform.mean, Uniform.min, Uniform.size, Uniform.stdDev,
      Uniform.sum, Uniform.variance, Uniform.percentile, Uniform.percentiles;
    rewrite <- ?Hread; try (split; [reflexivity | exact H]).
  - destruct (samplePercentile (read_array h (_values (base s))) p) as [vals' x].
    split; [reflexivity | now apply write_array_same].
  - destruct (samplePercentiles (read_array h (_values (base s))) ps) as [vals' xs].
    split; [reflexivity | now apply write_array_same].
Qed.

Lemma ask_all_same (Math_sqrt : Q -> Q) (qs : list query) (s : Sample) :
  forall h h' : heap,
    h !! _values (base s) = h' !! _values (base s) ->
    (ask_all Math_sqrt qs s h).1 = (ask_all Math_sqrt qs s h').1.
Proof.
  induction qs as [| q qs IH]; intros h h' H; [reflexivity |].
  cbn [ask_all].
  destruct (ask_same Math_sqrt q s h h' H) as [Ha Hh].
  destruct (ask Math_sqrt q s h) as [a h1], (ask Math_sqrt q s h') as [a' h1'].
  cbn [fst snd] in Ha, Hh. subst a'.
  specialize (IH h1 h1' Hh).
  destruct (ask_all Math_sqrt qs s h1) as [r h2],
           (ask_all Math_sqrt qs s h1') as [r' h2'].
  cbn [fst snd] in *. now subst r'.
Qed.

(** The array of [snapshot()] is the array of the sample: a write through it
    is seen by the sample. *)
Lemma snapshot_shares_array (s : UniformSample) (h : heap) (vs' : list Q) :
  read_array (<[(Uniform.snapshot s).2 := ArrayObj vs']> h) (_values s) = vs'.
Proof. apply read_array_lookup, lookup_insert_eq. Qed.

(** C10: for a sample of either kind whose array is in the heap, [values()]
    returns a new array holding the retained values; whatever is then written
    to the returned array, the array of the sample holds the same values, and
    every sequence of statistics queries gives the answers it gives without
    the write. *)
Theorem C10_values_returns_a_copy (Math_sqrt : Q -> Q) (s : Sample) (h : heap)
  (vs : list Q) :
  h !! _values (base s) = Some (ArrayObj vs) ->
  (Sample_values s h).1 <> _values (base s) /\
  h !! (Sample_values s h).1 = None /\
  read_array (Sample_values s h).2 (Sample_values s h).1 = vs /\
  (forall vs' : list Q,
      read_array (<[(Sample_values s h).1 := ArrayObj vs']> (Sample_values s h).2)
        (_values (base s)) = vs /\
      forall qs : list query,
        (ask_all Math_sqrt qs s
           (<[(Sample_values s h).1 := ArrayObj vs']> (Sample_values s h).2)).1
        = (ask_all Math_sqrt qs s h).1).
Proof.
  intros Hl. unfold Sample_values, Uniform.values.
  rewrite (read_array_lookup _ _ _ Hl).
  pose proof (alloc_fresh h (ArrayObj vs)) as Hfresh.
  set (l := (alloc h (ArrayObj vs)).1) in *.
  rewrite alloc_heap. fold l.
  assert (Hne : l <> _values (base s)) by congruence.
  split; [exact Hne |]. split; [exact Hfresh |].
  split; [apply read_array_lookup, lookup_insert_eq |].
  intros vs'.
  assert (Hsame : (<[l := ArrayObj vs']> (<[l := ArrayObj vs]> h)) !! _values (base s)
                  = h !! _values (base s)).
  { now rewrite !lookup_insert_ne by exact Hne. }
  split.
  - apply read_array_lookup. now rewrite Hsame.
  - intros qs. now apply ask_all_same.
Qed.

Lemma C10_values_returns_a_copy_witness :
  (Sample_values two_values two_values_heap).1 <> _values (base two_values) /\
  two_values_heap !! (Sample_values two_values two_values_heap).1 = None /\
  read_array (Sample_values two_values two_values_heap).2
    (Sample_values two_values two_values_heap).1 = [7; 5]%Q /\
  (forall vs' : list Q,
      read_array
        (<[(Sample_values two_values two_values_heap).1 := ArrayObj vs']>
           (Sample_values two_values two_values_heap).2)
        (_values (base two_values)) = [7; 5]%Q /\
      forall qs : list query,
        (ask_all sqrt_trunc qs two_values
           (<[(Sample_values two_values two_values_heap).1 := ArrayObj vs']>
              (Sample_values two_values two_values_heap).2)).1
        = (ask_all sqrt_trunc qs two_values two_values_heap).1).
Proof.
  apply (C10_values_returns_a_copy sqrt_trunc two_values two_values_heap [7; 5]%Q).
  reflexivity.
Defined.

(** ** ExpDecaySample *)

Lemma setTime_other (h : heap) (d l : loc) (t : Q) :
  d <> l -> setTime h d t !! l = h !! l.
Proof.
  intros Hne. unfold setTime.
  destruct (h !! d) as [[| ] |]; try reflexivity. now apply lookup_insert_ne.
Qed.

(** Every [update] adds one entry to [#values] and removes none. *)
Lemma expdecay_update_entries (Math_exp : Q -> Q) (now u i : Q)
  (s : ExpDecaySample) (h : heap) :
  length (ed_values (ExpDecay.update Math_exp now u i s h).1)
    = S (length (ed_values s)) /\
  ed_reservoirSize (ExpDecay.update Math_exp now u i s h).1 = ed_reservoirSize s.
Proof.
  unfold ExpDecay.update.
  destruct (alloc h (DateObj now)) as [t h1].
  match goal with |- context [if Qltb ?a ?b then _ else _] => destruct (Qltb a b) end;
    cbn [fst ed_values ed_reservoirSize];
    rewrite ?length_map, length_app; simpl; split; (lia || reflexivity).
Qed.

(** C2: the entries [#values] of an ExpDecaySample are not bounded by the
    reservoir size: after the calls [ops] on a new sample of any size [R]
    there are as many entries as calls (two entries after two updates with
    [R = 1]); the test at capacity reads and pops the array [_values] of the
    base class, which holds no entry. *)
Theorem C2_expdecay_entries_grow_with_every_update (Math_exp : Q -> Q)
  (alpha R t0 : Q) (ops : list (Q * Q * Q)) (h : heap) :
  length (ed_values (expdecay_after Math_exp alpha R t0 ops h).1) = length ops /\
  ed_reservoirSize (expdecay_after Math_exp alpha R t0 ops h).1 = R.
Proof.
  unfold expdecay_after.
  induction ops as [| op ops IH] using rev_ind.
  - simpl. unfold ExpDecay.new.
    destruct (Uniform.new R h) as [s h1].
    destruct (alloc h1 (DateObj t0)) as [d h2]. split; reflexivity.
  - rewrite foldl_app. cbn [foldl].
    destruct IH as [IHlen IHR].
    match goal with
    | |- context [ExpDecay.update ?e ?n ?u ?i ?s ?h0] =>
        destruct (expdecay_update_entries e n u i s h0) as [Hlen HR]
    end.
    rewrite Hlen, HR, IHlen, IHR, length_app. simpl. split; [lia | reflexivity].
Qed.

(** The array [_values] of the base class is empty in a new sample ... *)
Lemma expdecay_new_base (alpha R t0 : Q) (h : heap) :
  (ExpDecay.new alpha R t0 h).2 !! _values (super (ExpDecay.new alpha R t0 h).1)
    = Some (ArrayObj []) /\
  ed_t1 (ExpDecay.new alpha R t0 h).1 <> _values (super (ExpDecay.new alpha R t0 h).1) /\
  _count (super (ExpDecay.new alpha R t0 h).1) = 0%Z.
Proof.
  unfold ExpDecay.new.
  destruct (new_uniform R h) as (l & Hfresh & ->).
  pose proof (alloc_fresh (<[l := ArrayObj []]> h) (DateObj t0)) as Hd.
  rewrite (surjective_pairing (alloc (<[l := ArrayObj []]> h) (DateObj t0))).
  rewrite alloc_heap.
  set (d := (alloc (<[l := ArrayObj []]> h) (DateObj t0)).1) in *.
  assert (Hne : d <> l).
  { intros ->. rewrite lookup_insert_eq in Hd. discriminate. }
  cbn [fst snd super _values ed_t1 _count].
  split; [| split; [exact Hne | reflexivity]].
  rewrite setTime_other by exact Hne.
  rewrite lookup_insert_ne by exact Hne. apply lookup_insert_eq.
Qed.

(** ... and stays empty under [update], which counts the call. *)
Lemma expdecay_update_base (Math_exp : Q -> Q) (now u i : Q)
  (s : ExpDecaySample) (h : heap) :
  h !! _values (super s) = Some (ArrayObj []) ->
  ed_t1 s <> _values (super s) ->
  (ExpDecay.update Math_exp now u i s h).2
    !! _values (super (ExpDecay.update Math_exp now u i s h).1) = Some (ArrayObj []) /\
  ed_t1 (ExpDecay.update Math_exp now u i s h).1
    <> _values (super (ExpDecay.update Math_exp now u i s h).1) /\
  _count (super (ExpDecay.update Math_exp now u i s h).1) = (_count (super s) + 1)%Z.
Proof.
  intros Hl Hne. unfold ExpDecay.update.
  pose proof (alloc_fresh h (DateObj now)) as Ht.
  rewrite (surjective_pairing (alloc h (DateObj now))), alloc_heap.
  set (t := (alloc h (DateObj now)).1) in *.
  assert (Htl : t <> _values (super s)) by congruence.
  assert (Hl1 : (<[t := DateObj now]> h) !! _values (super s) = Some (ArrayObj [])).
  { now rewrite lookup_insert_ne. }
  cbn [_values _count reservoirSize].
  set (h2 := if Qeq_bool _ _ then _ else _).
  assert (Hl2 : h2 !! _values (super s) = Some (ArrayObj [])).
  { unfold h2. destruct (Qeq_bool _ _); [| exact Hl1].
    rewrite (write_array_lookup _ _ _ _ Hl1), (read_array_lookup _ _ _ Hl1).
    apply lookup_insert_eq. }
  destruct (Qltb (getTime h2 (ed_t1 s)) (getTime h2 t));
    cbn [fst snd super _values ed_t1 _count];
    (split; [| split; [exact Hne | reflexivity]]).
  - now rewrite setTime_other.
  - exact Hl2.
Qed.

(** C4: after one [update(100)] on a new StandardTimer, [count()] is 1 and
    the count of the meter is 1, but [max()] and [min()] are 0 and not 100:
    the value went to [#values] of the ExpDecaySample, and the statistics read
    the array [_values] of the base class, which stays empty. *)
Theorem C4_timer_update_leaves_statistics_at_zero (Math_exp : Q -> Q)
  (t0 now u : Q) (h : heap) :
  exists (t : StandardTimer) (h' : heap),
    Timer.update Math_exp now u 100 (Timer.new Math_exp t0 h).1
      (Timer.new Math_exp t0 h).2 = Some (t, h') /\
    Timer.count t = 1%Z /\
    Timer.max t h' = 0%Q /\
    Timer.min t h' = 0%Q /\
    (Meter.count (timer_meter t) == 1)%Q.
Proof.
  unfold Timer.new.
  destruct (expdecay_new_base (15 # 1000) 1028 t0 h) as (Hl & Hne & Hcount).
  destruct (ExpDecay.new (15 # 1000) 1028 t0 h) as [s h0].
  cbn [fst snd] in *.
  unfold Timer.update, Histogram.update, Sample_update.
  cbn [timer_hist timer_meter hist_sample].
  destruct (expdecay_update_base Math_exp now u 100 s h0 Hl Hne) as (Hl' & _ & Hcount').
  destruct (ExpDecay.update Math_exp now u 100 s h0) as [s' h'].
  cbn [fst snd] in *.
  unfold Meter.mark, Meter.new. cbn [meter_a1 meter_a5 meter_a15 meter_count meter_start].
  destruct (update_total now 1 (EWMA.newEWMA1 Math_exp t0)) as (a1 & ->);
    [simpl; discriminate |].
  destruct (update_total now 1 (EWMA.newEWMA5 Math_exp t0)) as (a5 & ->);
    [simpl; discriminate |].
  destruct (update_total now 1 (EWMA.newEWMA15 Math_exp t0)) as (a15 & ->);
    [simpl; discriminate |].
  cbn [mbind option_bind].
  eexists _, _. split; [reflexivity |].
  unfold Timer.count, Timer.max, Timer.min, Histogram.count, Histogram.max,
    Histogram.min, Uniform.count, Uniform.max, Uniform.min.
  cbn [timer_hist timer_meter hist_sample base meter_count Meter.count].
  rewrite (read_array_lookup _ _ _ Hl').
  split; [lia |]. repeat split; reflexivity.
Qed.

Lemma div_by_zero_not_finite (a : Q) :
  isFinite (jsnum_div (Fin a) (Fin (inject_Z 0))) = false.
Proof.
  unfold jsnum_div. change (Qsign (inject_Z 0)) with Eq. now destruct (Qsign a).
Qed.

Lemma mul_not_finite (k : jsnum) (f : Q) :
  isFinite k = false -> isFinite (jsnum_mul k (Fin f)) = false.
Proof.
  destruct k; simpl; try discriminate; intros _; unfold scale_inf;
    now destruct (Qsign f).
Qed.

(** The divisor lies in [[0, count)]. *)
Lemma divisor_range (u : Q) (count : Z) :
  (0 <= u)%Q -> (u < 1)%Q -> (1 <= count)%Z ->
  (0 <= ExpDecay.divisor u count < count)%Z.
Proof.
  intros H0 H1 Hc. unfold ExpDecay.divisor.
  assert (Hcq : (0 < inject_Z count)%Q) by (change 0%Q with (inject_Z 0); rewrite <- Zlt_Qlt; lia).
  split.
  - change 0%Z with (Qfloor 0). apply Qfloor_resp_le. nra.
  - rewrite Zlt_Qlt.
    apply Qle_lt_trans with (u * inject_Z count)%Q; [apply Qfloor_le | nra].
Qed.

(** C8: on the first [update] of a sample (count 0 before the call) the
    divisor [f] is 0 whatever [Math.random()] returns in [[0, 1)], so it does
    not lie in [(0, count]]; the key of the entry the call adds comes from a
    division by zero and is not a finite number. *)
Theorem C8_first_update_divides_by_zero (Math_exp : Q -> Q) (now u i : Q)
  (s : ExpDecaySample) (h : heap) :
  (0 <= u)%Q -> (u < 1)%Q ->
  _count (super s) = 0%Z ->
  ExpDecay.divisor u (_count (super s) + 1) = 0%Z /\
  exists k : jsnum,
    last (ed_values (ExpDecay.update Math_exp now u i s h).1) = Some (mkEntry k i) /\
    isFinite k = false.
Proof.
  intros H0 H1 Hcount.
  assert (Hf : ExpDecay.divisor u (_count (super s) + 1) = 0%Z).
  { pose proof (divisor_range u (_count (super s) + 1) H0 H1). lia. }
  split; [exact Hf |].
  unfold ExpDecay.update.
  destruct (alloc h (DateObj now)) as [t h1].
  cbn [_count]. rewrite Hf.
  match goal with
  | |- context [if Qltb ?a ?b then _ else _] => destruct (Qltb a b)
  end; cbn [fst ed_values].
  - rewrite map_app. cbn [map]. rewrite last_snoc.
    eexists. split; [reflexivity |]. cbn [key].
    apply mul_not_finite, div_by_zero_not_finite.
  - rewrite last_snoc. eexists. split; [reflexivity |].
    apply div_by_zero_not_finite.
Qed.

Lemma C8_first_update_divides_by_zero_witness :
  ExpDecay.divisor (1 # 2)
    (_count (super (ExpDecay.new (15 # 1000) 1028 0 ∅).1) + 1) = 0%Z /\
  exists k : jsnum,
    last (ed_values
            (ExpDecay.update exp_series 7 (1 # 2) 100
               (ExpDecay.new (15 # 1000) 1028 0 ∅).1
               (ExpDecay.new (15 # 1000) 1028 0 ∅).2).1) = Some (mkEntry k 100) /\
    isFinite k = false.
Proof.
  apply (C8_first_update_divides_by_zero exp_series 7 (1 # 2) 100
           (ExpDecay.new (15 # 1000) 1028 0 ∅).1 (ExpDecay.new (15 # 1000) 1028 0 ∅).2).
  - discriminate.
  - reflexivity.
  - reflexivity.
Defined.

(** ** The outputs shown in the README *)

(** The histogram of the README (values 212, 777 and 54 in a uniform sample of
    size 30): median 54 and 777 for the other percentiles, as printed there. *)
Example readme_histogram_percentiles :
  samplePercentiles [212; 777; 54]%Q [1 # 2; 75 # 100; 95 # 100; 99 # 100; 999 # 1000]
  = ([212; 54; 777]%Q, [Fin (108 # 2); Fin 777; Fin 777; Fin 777; Fin 777]).
Proof. vm_compute. reflexivity. Qed.

Example readme_histogram_statistics :
  sampleMax [212; 777; 54]%Q = 777%Q /\
  sampleMin [212; 777; 54]%Q = 54%Q /\
  sampleSum [212; 777; 54]%Q = 1043%Q.
Proof. vm_compute. repeat split; reflexivity. Qed.

(** ** An exponentially-decaying sample of size one *)

(** Two updates on [new ExpDecaySample(0.015, 1)]: two entries are kept, the
    first with an infinite key, while [size()] and [max()] see the empty array
    of the base class. *)
Example expdecay_reservoir_of_one :
  map value (ed_values
               (expdecay_after exp_series (15 # 1000) 1 0
                  [(1000, 1 # 2, 10); (2000, 3 # 4, 20)]%Q ∅).1) = [10; 20]%Q /\
  map (fun e => isFinite (key e))
    (ed_values
       (expdecay_after exp_series (15 # 1000) 1 0
          [(1000, 1 # 2, 10); (2000, 3 # 4, 20)]%Q ∅).1) = [false; true] /\
  Uniform.size
    (super (expdecay_after exp_series (15 # 1000) 1 0
              [(1000, 1 # 2, 10); (2000, 3 # 4, 20)]%Q ∅).1)
    (expdecay_after exp_series (15 # 1000) 1 0
       [(1000, 1 # 2, 10); (2000, 3 # 4, 20)]%Q ∅).2 = 0%Q /\
  Uniform.max
    (super (expdecay_after exp_series (15 # 1000) 1 0
              [(1000, 1 # 2, 10); (2000, 3 # 4, 20)]%Q ∅).1)
    (expdecay_after exp_series (15 # 1000) 1 0
       [(1000, 1 # 2, 10); (2000, 3 # 4, 20)]%Q ∅).2 = 0%Q.
Proof. vm_compute. repeat split; reflexivity. Qed.

(** ** Minimum, maximum, mean and variance of a non-empty array *)

Lemma Array_length_cons (x : Q) (vals : list Q) :
  (Array_length (x :: vals) == Array_length vals + 1)%Q.
Proof.
  unfold Array_length. simpl length. rewrite Nat2Z.inj_succ, <- Z.add_1_r.
  now rewrite inject_Z_plus.
Qed.

Lemma Array_length_nonneg (vals : list Q) : (0 <= Array_length vals)%Q.
Proof.
  unfold Array_length. change 0%Q with (inject_Z 0). rewrite <- Zle_Qle. lia.
Qed.

Lemma Array_length_pos (vals : list Q) :
  vals <> [] -> (0 < Array_length vals)%Q.
Proof.
  destruct vals as [| x vals]; [congruence | intros _].
  rewrite Array_length_cons. pose proof (Array_length_nonneg vals). lra.
Qed.

Lemma Array_length_not_zero (vals : list Q) :
  vals <> [] -> Qeq_bool (Array_length vals) 0 = false.
Proof.
  intros Hne. apply not_true_iff_false. rewrite Qeq_bool_iff.
  pose proof (Array_length_pos vals Hne). lra.
Qed.

(** The loop of [sampleMax] from any starting value. *)
Lemma max_loop (vals : list Q) :
  forall init : Q,
    let r := foldl (fun max v => if Qltb max v then v else max) init vals in
    (init <= r)%Q /\
    (forall v : Q, v ∈ vals -> (v <= r)%Q) /\
    (r = init \/ r ∈ vals).
Proof.
  induction vals as [| x vals IH]; intros init; simpl.
  - split; [lra |]. split; [intros v Hv; inversion Hv | now left].
  - destruct (Qltb init x) eqn:Hlt.
    + apply Qltb_lt in Hlt. destruct (IH x) as (Hle & Hall & Hin).
      split; [lra |]. split.
      * intros v Hv. apply elem_of_cons in Hv as [-> | Hv]; [exact Hle | now apply Hall].
      * right. destruct Hin as [-> | Hin]; [left | now right].
    + apply Qltb_ge in Hlt. destruct (IH init) as (Hle & Hall & Hin).
      split; [exact Hle |]. split.
      * intros v Hv. apply elem_of_cons in Hv as [-> | Hv]; [lra | now apply Hall].
      * destruct Hin as [-> | Hin]; [now left | right; now right].
Qed.

Lemma min_loop (vals : list Q) :
  forall init : Q,
    let r := foldl (fun min v => if Qltb v min then v else min) init vals in
    (r <= init)%Q /\
    (forall v : Q, v ∈ vals -> (r <= v)%Q) /\
    (r = init \/ r ∈ vals).
Proof.
  induction vals as [| x vals IH]; intros init; simpl.
  - split; [lra |]. split; [intros v Hv; inversion Hv | now left].
  - destruct (Qltb x init) eqn:Hlt.
    + apply Qltb_lt in Hlt. destruct (IH x) as (Hle & Hall & Hin).
      split; [lra |]. split.
      * intros v Hv. apply elem_of_cons in Hv as [-> | Hv]; [exact Hle | now apply Hall].
      * right. destruct Hin as [-> | Hin]; [left | now right].
    + apply Qltb_ge in Hlt. destruct (IH init) as (Hle & Hall & Hin).
      split; [exact Hle |]. split.
      * intros v Hv. apply elem_of_cons in Hv as [-> | Hv]; [lra | now apply Hall].
      * destruct Hin as [-> | Hin]; [now left | right; now right].
Qed.

(** X1: on a non-empty array [sampleMax] is an upper bound of the elements
    and never lies below [Number.MIN_SAFE_INTEGER]; it is one of the elements
    as soon as one of them exceeds that constant, and it is the constant
    itself when none does. *)
Theorem sampleMax_nonempty (vals : list Q) :
  vals <> [] ->
  (forall v : Q, v ∈ vals -> (v <= sampleMax vals)%Q) /\
  (MIN_SAFE_INTEGER <= sampleMax vals)%Q /\
  ((exists v : Q, v ∈ vals /\ (MIN_SAFE_INTEGER < v)%Q) -> sampleMax vals ∈ vals) /\
  ((forall v : Q, v ∈ vals -> (v <= MIN_SAFE_INTEGER)%Q) ->
   (sampleMax vals == MIN_SAFE_INTEGER)%Q).
Proof.
  intros Hne. unfold sampleMax. rewrite (Array_length_not_zero vals Hne).
  destruct (max_loop vals MIN_SAFE_INTEGER) as (Hle & Hall & Hin).
  split; [exact Hall |]. split; [exact Hle |]. split.
  - intros (v & Hv & Hgt). destruct Hin as [Heq | Hin]; [| exact Hin].
    specialize (Hall v Hv). rewrite Heq in Hall. lra.
  - intros Hlow. destruct Hin as [-> | Hin]; [reflexivity |].
    specialize (Hlow _ Hin). lra.
Qed.

Lemma sampleMax_nonempty_witness :
  (forall v : Q, v ∈ three_values -> (v <= sampleMax three_values)%Q) /\
  (MIN_SAFE_INTEGER <= sampleMax three_values)%Q /\
  ((exists v : Q, v ∈ three_values /\ (MIN_SAFE_INTEGER < v)%Q) ->
   sampleMax three_values ∈ three_values) /\
  ((forall v : Q, v ∈ three_values -> (v <= MIN_SAFE_INTEGER)%Q) ->
   (sampleMax three_values == MIN_SAFE_INTEGER)%Q).
Proof.
  apply (sampleMax_nonempty three_values). discriminate.
Defined.

(** X2: on a non-empty array [sampleMin] is a lower bound of the elements
    and never lies above [Number.MAX_SAFE_INTEGER]; it is one of the elements
    as soon as one of them is below that constant, and it is the constant
    itself when none is. *)
Theorem sampleMin_nonempty (vals : list Q) :
  vals <> [] ->
  (forall v : Q, v ∈ vals -> (sampleMin vals <= v)%Q) /\
  (sampleMin vals <= MAX_SAFE_INTEGER)%Q /\
  ((exists v : Q, v ∈ vals /\ (v < MAX_SAFE_INTEGER)%Q) -> sampleMin vals ∈ vals) /\
  ((forall v : Q, v ∈ vals -> (MAX_SAFE_INTEGER <= v)%Q) ->
   (sampleMin vals == MAX_SAFE_INTEGER)%Q).
Proof.
  intros Hne. unfold sampleMin. rewrite (Array_length_not_zero vals Hne).
  destruct (min_loop vals MAX_SAFE_INTEGER) as (Hle & Hall & Hin).
  split; [exact Hall |]. split; [exact Hle |]. split.
  - intros (v & Hv & Hgt). destruct Hin as [Heq | Hin]; [| exact Hin].
    specialize (Hall v Hv). rewrite Heq in Hall. lra.
  - intros Hlow. destruct Hin as [-> | Hin]; [reflexivity |].
    specialize (Hlow _ Hin). lra.
Qed.

Lemma sampleMin_nonempty_witness :
  (forall v : Q, v ∈ three_values -> (sampleMin three_values <= v)%Q) /\
  (sampleMin three_values <= MAX_SAFE_INTEGER)%Q /\
  ((exists v : Q, v ∈ three_values /\ (v < MAX_SAFE_INTEGER)%Q) ->
   sampleMin three_values ∈ three_values) /\
  ((forall v : Q, v ∈ three_values -> (MAX_SAFE_INTEGER <= v)%Q) ->
   (sampleMin three_values == MAX_SAFE_INTEGER)%Q).
Proof.
  apply (sampleMin_nonempty three_values). discriminate.
Defined.




Lemma squares_loop_nonneg (m : Q) (vals : list Q) :
  forall init : Q,
    (0 <= init)%Q ->
    (0 <= foldl (fun sum v => let d := (v - m)%Q in (sum + d * d)%Q) init vals)%Q.
Proof.
  induction vals as [| x vals IH]; intros init Hinit; simpl foldl; [exact Hinit |].
  apply IH. cbv zeta.
  pose proof (Qsqr_nonneg (x - m)) as Hsq. lra.
Qed.

(** X4: [sampleVariance] is never negative. *)
Theorem sampleVariance_nonneg (vals : list Q) : (0 <= sampleVariance vals)%Q.
Proof.
  unfold sampleVariance.
  destruct vals as [| x vals]; [simpl; lra |].
  rewrite Array_length_not_zero by discriminate.
  apply Qle_shift_div_l; [apply Array_length_pos; discriminate |].
  rewrite Qmult_0_l. apply squares_loop_nonneg. lra.
Qed.

(** ** The in-place sort of the percentile queries *)

Lemma sort_insert_perm (x : Q) (l : list Q) : sort_insert x l ≡ₚ x :: l.
Proof.
  induction l as [| y l IH]; simpl; [reflexivity |].
  destruct (SortCompare_lt y x); [| reflexivity].
  rewrite IH. apply perm_swap.
Qed.

Lemma Array_sort_perm (l : list Q) : Array_sort l ≡ₚ l.
Proof.
  induction l as [| x l IH]; simpl; [reflexivity |].
  now rewrite sort_insert_perm, IH.
Qed.

Lemma Array_sort_length (l : list Q) : length (Array_sort l) = length l.
Proof. apply Permutation_length, Array_sort_perm. Qed.

Lemma SortCompare_lt_asym (x y : Q) :
  SortCompare_lt x y = true -> SortCompare_lt y x = false.
Proof.
  unfold SortCompare_lt, String.ltb. rewrite (String.compare_antisym (Number_toString x)).
  now destruct (Number_toString y ?= Number_toString x)%string.
Qed.

Lemma sort_insert_ordered (x : Q) (l : list Q) :
  string_ordered l -> string_ordered (sort_insert x l).
Proof.
  induction l as [| y l IH]; intros Hord; simpl; [tauto |].
  destruct (SortCompare_lt y x) eqn:Hyx.
  - destruct Hord as [Hhead Htail]. specialize (IH Htail).
    split; [| exact IH].
    destruct l as [| z l]; simpl.
    + now apply SortCompare_lt_asym.
    + destruct (SortCompare_lt z x); [exact Hhead | now apply SortCompare_lt_asym].
  - split; [exact Hyx | exact Hord].
Qed.

Lemma Array_sort_ordered (l : list Q) : string_ordered (Array_sort l).
Proof.
  induction l as [| x l IH]; simpl; [exact I | now apply sort_insert_ordered].
Qed.

Lemma Array_sort_fixed (l : list Q) : string_ordered l -> Array_sort l = l.
Proof.
  induction l as [| x l IH]; intros Hord; [reflexivity |].
  destruct Hord as [Hhead Htail]. simpl. rewrite (IH Htail).
  destruct l as [| y l]; [reflexivity |]. simpl. now rewrite Hhead.
Qed.

Lemma samplePercentiles_array (vals ps : list Q) :
  (samplePercentiles vals ps).1 = Array_sort vals.
Proof.
  unfold samplePercentiles.
  destruct vals as [| x vals]; [reflexivity |].
  now rewrite Array_length_not_zero by discriminate.
Qed.


Lemma samplePercentiles_of_sorted (vals ps : list Q) :
  (samplePercentiles (Array_sort vals) ps).2 = (samplePercentiles vals ps).2.
Proof.
  unfold samplePercentiles.
  assert (Hlen : Array_length (Array_sort vals) = Array_length vals).
  { unfold Array_length. now rewrite Array_sort_length. }
  rewrite Hlen. destruct (Qeq_bool (Array_length vals) 0); [reflexivity |].
  cbn [snd]. now rewrite (Array_sort_fixed _ (Array_sort_ordered vals)).
Qed.



(** X6: after a [percentiles] query a further one, for any percentiles,
    leaves the heap as it is, and the same query gives the same scores again. *)
Theorem percentiles_repeatable (ps ps' : list Q) (s : UniformSample) (h : heap)
  (vs : list Q) :
  h !! _values s = Some (ArrayObj vs) ->
  (Uniform.percentiles ps' s (Uniform.percentiles ps s h).2).2
    = (Uniform.percentiles ps s h).2 /\
  (Uniform.percentiles ps s (Uniform.percentiles ps s h).2).1
    = (Uniform.percentiles ps s h).1.
Proof.
  intros Hl.
  assert (Hfirst : (Uniform.percentiles ps s h).2
                   = <[_values s := ArrayObj (Array_sort vs)]> h).
  { unfold Uniform.percentiles. rewrite (read_array_lookup _ _ _ Hl).
    pose proof (samplePercentiles_array vs ps) as Harr.
    destruct (samplePercentiles vs ps) as [vals' scores]. cbn [fst snd] in *.
    now rewrite (write_array_lookup _ _ _ _ Hl), Harr. }
  rewrite Hfirst.
  assert (Hl' : (<[_values s := ArrayObj (Array_sort vs)]> h) !! _values s
                = Some (ArrayObj (Array_sort vs))) by apply lookup_insert_eq.
  split.
  - unfold Uniform.percentiles. rewrite (read_array_lookup _ _ _ Hl').
    pose proof (samplePercentiles_array (Array_sort vs) ps') as Harr.
    destruct (samplePercentiles (Array_sort vs) ps') as [vals' scores].
    cbn [fst snd] in *.
    rewrite (write_array_lookup _ _ _ _ Hl'), Harr.
    rewrite (Array_sort_fixed _ (Array_sort_ordered vs)).
    apply insert_insert_eq.
  - unfold Uniform.percentiles.
    rewrite (read_array_lookup _ _ _ Hl'), (read_array_lookup _ _ _ Hl).
    pose proof (samplePercentiles_of_sorted vs ps) as Hsc.
    destruct (samplePercentiles (Array_sort vs) ps) as [vals1 scores1].
    destruct (samplePercentiles vs ps) as [vals2 scores2].
    exact Hsc.
Qed.

Lemma percentiles_repeatable_witness :
  (Uniform.percentiles [1%Q] (base two_values)
     (Uniform.percentiles [1 # 2] (base two_values) two_values_heap).2).2
    = (Uniform.percentiles [1 # 2] (base two_values) two_values_heap).2 /\
  (Uniform.percentiles [1 # 2] (base two_values)
     (Uniform.percentiles [1 # 2] (base two_values) two_values_heap).2).1
    = (Uniform.percentiles [1 # 2] (base two_values) two_values_heap).1.
Proof.
  apply (percentiles_repeatable [1 # 2] [1%Q] (base two_values) two_values_heap [7; 5]%Q).
  reflexivity.
Defined.

(** X7: [percentiles] agrees with [percentile]: each score is the one the
    single query gives for that percentile, and both leave the same heap. *)
Theorem percentiles_agree_with_percentile (ps : list Q) (s : UniformSample)
  (h : heap) :
  (Uniform.percentiles ps s h).1 = map (fun p => (Uniform.percentile p s h).1) ps /\
  forall p : Q, (Uniform.percentile p s h).2 = (Uniform.percentiles ps s h).2.
Proof.
  unfold Uniform.percentiles, Uniform.percentile, samplePercentile.
  set (vals := read_array h (_values s)).
  split.
  - unfold samplePercentiles. destruct (Qeq_bool (Array_length vals) 0); cbn [fst snd];
      apply map_ext; intros p; reflexivity.
  - intros p. pose proof (samplePercentiles_array vals [p]) as H1.
    pose proof (samplePercentiles_array vals ps) as H2.
    destruct (samplePercentiles vals [p]) as [v1 s1].
    destruct (samplePercentiles vals ps) as [v2 s2].
    cbn [fst snd] in *. now subst.
Qed.

Lemma Qfloor_minus_1 (p : Q) : Qfloor (p - 1) = (Qfloor p - 1)%Z.
Proof.
  pose proof (Qfloor_pred p) as Hlt.
  assert (Hge : (Qfloor p - 1 <= Qfloor (p - 1))%Z).
  { rewrite <- (Qfloor_Z (Qfloor p - 1)). apply Qfloor_resp_le.
    unfold Z.sub. rewrite inject_Z_plus, inject_Z_opp. pose proof (Qfloor_le p).
    change (inject_Z 1) with 1%Q. lra. }
  lia.
Qed.



(** ** Clearing a uniform sample *)

(** X9: [clear()] on a uniform sample resets the count, keeps the reservoir
    size and gives the sample a new empty array, so that its size and every
    statistic are 0; the array it held before (the one [snapshot()] handed
    out) keeps its values. *)
Theorem uniform_clear_resets (s : UniformSample) (h : heap) (vs : list Q) :
  h !! _values s = Some (ArrayObj vs) ->
  Uniform.count (Uniform.clear s h).1 = 0%Z /\
  reservoirSize (Uniform.clear s h).1 = reservoirSize s /\
  Uniform.size (Uniform.clear s h).1 (Uniform.clear s h).2 = 0%Q /\
  Uniform.max (Uniform.clear s h).1 (Uniform.clear s h).2 = 0%Q /\
  Uniform.min (Uniform.clear s h).1 (Uniform.clear s h).2 = 0%Q /\
  Uniform.mean (Uniform.clear s h).1 (Uniform.clear s h).2 = 0%Q /\
  Uniform.sum (Uniform.clear s h).1 (Uniform.clear s h).2 = 0%Q /\
  Uniform.variance (Uniform.clear s h).1 (Uniform.clear s h).2 = 0%Q /\
  _values (Uniform.clear s h).1 <> _values s /\
  read_array (Uniform.clear s h).2 (_values s) = vs.
Proof.
  intros Hl. unfold Uniform.clear.
  pose proof (alloc_fresh h (ArrayObj [])) as Hfresh.
  rewrite (surjective_pairing (alloc h (ArrayObj []))), alloc_heap.
  set (l := (alloc h (ArrayObj [])).1) in *.
  assert (Hne : l <> _values s) by congruence.
  cbn [fst snd].
  unfold Uniform.count, Uniform.size, Uniform.max, Uniform.min, Uniform.mean,
    Uniform.sum, Uniform.variance.
  cbn [_count _values reservoirSize].
  rewrite (read_array_lookup _ l []) by apply lookup_insert_eq.
  repeat (split; [reflexivity |]). split; [exact Hne |].
  apply read_array_lookup. now rewrite lookup_insert_ne.
Qed.

Lemma uniform_clear_resets_witness :
  Uniform.count (Uniform.clear (base two_values) two_values_heap).1 = 0%Z /\
  reservoirSize (Uniform.clear (base two_values) two_values_heap).1
    = reservoirSize (base two_values) /\
  Uniform.size (Uniform.clear (base two_values) two_values_heap).1
    (Uniform.clear (base two_values) two_values_heap).2 = 0%Q /\
  Uniform.max (Uniform.clear (base two_values) two_values_heap).1
    (Uniform.clear (base two_values) two_values_heap).2 = 0%Q /\
  Uniform.min (Uniform.clear (base two_values) two_values_heap).1
    (Uniform.clear (base two_values) two_values_heap).2 = 0%Q /\
  Uniform.mean (Uniform.clear (base two_values) two_values_heap).1
    (Uniform.clear (base two_values) two_values_heap).2 = 0%Q /\
  Uniform.sum (Uniform.clear (base two_values) two_values_heap).1
    (Uniform.clear (base two_values) two_values_heap).2 = 0%Q /\
  Uniform.variance (Uniform.clear (base two_values) two_values_heap).1
    (Uniform.clear (base two_values) two_values_heap).2 = 0%Q /\
  _values (Uniform.clear (base two_values) two_values_heap).1
    <> _values (base two_values) /\
  read_array (Uniform.clear (base two_values) two_values_heap).2
    (_values (base two_values)) = [7; 5]%Q.
Proof.
  apply (uniform_clear_resets (base two_values) two_values_heap [7; 5]%Q).
  reflexivity.
Defined.

(** ** More on ExpDecaySample *)

(** X10: [update(i)] appends the value [i] to the values of the entries and
    leaves the values of the entries it found, and their order, as they are,
    also when it rescales the keys. *)
Theorem expdecay_update_appends_value (Math_exp : Q -> Q) (now u i : Q)
  (s : ExpDecaySample) (h : heap) :
  map value (ed_values (ExpDecay.update Math_exp now u i s h).1)
    = map value (ed_values s) ++ [i].
Proof.
  unfold ExpDecay.update.
  destruct (alloc h (DateObj now)) as [t h1].
  match goal with |- context [if Qltb ?a ?b then _ else _] => destruct (Qltb a b) end;
    cbn [fst ed_values].
  - rewrite map_map, map_app. reflexivity.
  - rewrite map_app. reflexivity.
Qed.

Lemma expdecay_after_snoc (Math_exp : Q -> Q) (alpha R t0 : Q)
  (ops : list (Q * Q * Q)) (op : Q * Q * Q) (h : heap) :
  expdecay_after Math_exp alpha R t0 (ops ++ [op]) h
    = ExpDecay.update Math_exp op.1.1 op.1.2 op.2
        (expdecay_after Math_exp alpha R t0 ops h).1
        (expdecay_after Math_exp alpha R t0 ops h).2.
Proof. unfold expdecay_after. now rewrite foldl_app. Qed.

Lemma expdecay_after_base (Math_exp : Q -> Q) (alpha R t0 : Q)
  (ops : list (Q * Q * Q)) (h : heap) :
  (expdecay_after Math_exp alpha R t0 ops h).2
    !! _values (super (expdecay_after Math_exp alpha R t0 ops h).1)
    = Some (ArrayObj []) /\
  ed_t1 (expdecay_after Math_exp alpha R t0 ops h).1
    <> _values (super (expdecay_after Math_exp alpha R t0 ops h).1) /\
  _count (super (expdecay_after Math_exp alpha R t0 ops h).1)
    = Z.of_nat (length ops).
Proof.
  induction ops as [| op ops IH] using rev_ind.
  - apply (expdecay_new_base alpha R t0 h).
  - rewrite expdecay_after_snoc. destruct IH as (Hl & Hne & Hcount).
    destruct (expdecay_update_base Math_exp op.1.1 op.1.2 op.2 _ _ Hl Hne)
      as (Hl' & Hne' & Hcount').
    split; [exact Hl' |]. split; [exact Hne' |].
    rewrite Hcount', Hcount, length_app. simpl. lia.
Qed.

(** X11: whatever is sampled into a new ExpDecaySample, the values go to
    [#values] in the order of the calls and [count()] counts the calls, but
    [size()], [max()], [min()], [mean()], [sum()] and [variance()] stay 0 and
    every percentile is 0: they read the array of the base class. *)
Theorem expdecay_statistics_stay_zero (Math_exp : Q -> Q) (alpha R t0 : Q)
  (ops : list (Q * Q * Q)) (h : heap) (ps : list Q) :
  map value (ed_values (expdecay_after Math_exp alpha R t0 ops h).1) = ops.*2 /\
  Uniform.count (super (expdecay_after Math_exp alpha R t0 ops h).1)
    = Z.of_nat (length ops) /\
  Uniform.size (super (expdecay_after Math_exp alpha R t0 ops h).1)
    (expdecay_after Math_exp alpha R t0 ops h).2 = 0%Q /\
  Uniform.max (super (expdecay_after Math_exp alpha R t0 ops h).1)
    (expdecay_after Math_exp alpha R t0 ops h).2 = 0%Q /\
  Uniform.min (super (expdecay_after Math_exp alpha R t0 ops h).1)
    (expdecay_after Math_exp alpha R t0 ops h).2 = 0%Q /\
  Uniform.mean (super (expdecay_after Math_exp alpha R t0 ops h).1)
    (expdecay_after Math_exp alpha R t0 ops h).2 = 0%Q /\
  Uniform.sum (super (expdecay_after Math_exp alpha R t0 ops h).1)
    (expdecay_after Math_exp alpha R t0 ops h).2 = 0%Q /\
  Uniform.variance (super (expdecay_after Math_exp alpha R t0 ops h).1)
    (expdecay_after Math_exp alpha R t0 ops h).2 = 0%Q /\
  (Uniform.percentiles ps (super (expdecay_after Math_exp alpha R t0 ops h).1)
     (expdecay_after Math_exp alpha R t0 ops h).2).1
    = replicate (length ps) (Fin 0).
Proof.
  split.
  - induction ops as [| op ops IH] using rev_ind.
    + unfold expdecay_after, ExpDecay.new. simpl.
      destruct (Uniform.new R h) as [s h1].
      now destruct (alloc h1 (DateObj t0)) as [d h2].
    + rewrite expdecay_after_snoc, expdecay_update_appends_value, IH.
      now rewrite fmap_app.
  - destruct (expdecay_after_base Math_exp alpha R t0 ops h) as (Hl & _ & Hcount).
    unfold Uniform.count, Uniform.size, Uniform.max, Uniform.min, Uniform.mean,
      Uniform.sum, Uniform.variance, Uniform.percentiles.
    rewrite (read_array_lookup _ _ _ Hl).
    split; [exact Hcount |]. repeat (split; [reflexivity |]).
    change (samplePercentiles [] ps) with ([] : list Q, map (fun _ : Q => Fin 0) ps).
    cbn [fst].
    induction ps as [| p ps IHps]; simpl; [reflexivity | now rewrite IHps].
Qed.

(** ** The [Date] objects of an ExpDecaySample *)

Lemma getTime_lookup (h : heap) (d : loc) (t : Q) :
  h !! d = Some (DateObj t) -> getTime h d = t.
Proof. intros H. unfold getTime. now rewrite H. Qed.

Lemma setTime_lookup (h : heap) (d : loc) (t t' : Q) :
  h !! d = Some (DateObj t) -> setTime h d t' = <[d := DateObj t']> h.
Proof. intros H. unfold setTime. now rewrite H. Qed.




(** X13: [clear()] on an ExpDecaySample resets the count and gives the base
    class a new empty array, sets [#t0] to a new [Date] of the current time
    and moves [#t1] one hour past its own former time; the entries in
    [#values] are kept. *)
Theorem expdecay_clear_keeps_entries (now tau : Q) (s : ExpDecaySample)
  (h : heap) :
  h !! ed_t1 s = Some (DateObj tau) ->
  Uniform.count (super (ExpDecay.clear now s h).1) = 0%Z /\
  Uniform.size (super (ExpDecay.clear now s h).1) (ExpDecay.clear now s h).2 = 0%Q /\
  ed_values (ExpDecay.clear now s h).1 = ed_values s /\
  getTime (ExpDecay.clear now s h).2 (ed_t0 (ExpDecay.clear now s h).1) = now /\
  getTime (ExpDecay.clear now s h).2 (ed_t1 (ExpDecay.clear now s h).1)
    = (tau + rescaleThreshold)%Q.
Proof.
  intros Ht1. unfold ExpDecay.clear, Uniform.clear.
  pose proof (alloc_fresh h (ArrayObj [])) as Hl.
  rewrite (surjective_pairing (alloc h (ArrayObj []))), alloc_heap.
  set (l := (alloc h (ArrayObj [])).1) in *.
  set (h1 := <[l := ArrayObj []]> h).
  pose proof (alloc_fresh h1 (DateObj now)) as Hd.
  rewrite (surjective_pairing (alloc h1 (DateObj now))), alloc_heap.
  set (d := (alloc h1 (DateObj now)).1) in *.
  assert (Hl1 : l <> ed_t1 s) by congruence.
  assert (Hdl : d <> l).
  { intros Heq. rewrite Heq in Hd. unfold h1 in Hd.
    rewrite lookup_insert_eq in Hd. discriminate. }
  assert (Hd1 : d <> ed_t1 s).
  { intros Heq. rewrite Heq in Hd. unfold h1 in Hd.
    rewrite lookup_insert_ne in Hd by exact Hl1. congruence. }
  set (h2 := <[d := DateObj now]> h1).
  assert (H2t : h2 !! ed_t1 s = Some (DateObj tau)).
  { unfold h2, h1. now rewrite !lookup_insert_ne by congruence. }
  rewrite (getTime_lookup _ _ _ H2t), (setTime_lookup _ _ _ _ H2t).
  cbn [fst snd super ed_values ed_t0 ed_t1].
  unfold Uniform.count, Uniform.size. cbn [_count _values].
  split; [reflexivity |]. split.
  - rewrite (read_array_lookup _ l []); [reflexivity |].
    unfold h2, h1.
    now rewrite lookup_insert_ne, lookup_insert_ne, lookup_insert_eq by congruence.
  - split; [reflexivity |]. split.
    + apply getTime_lookup. unfold h2.
      now rewrite lookup_insert_ne, lookup_insert_eq by congruence.
    + apply getTime_lookup, lookup_insert_eq.
Qed.

Lemma expdecay_clear_keeps_entries_witness :
  Uniform.count
    (super (ExpDecay.clear 9 (ExpDecay.new (15 # 1000) 1028 0 ∅).1
              (ExpDecay.new (15 # 1000) 1028 0 ∅).2).1) = 0%Z /\
  Uniform.size
    (super (ExpDecay.clear 9 (ExpDecay.new (15 # 1000) 1028 0 ∅).1
              (ExpDecay.new (15 # 1000) 1028 0 ∅).2).1)
    (ExpDecay.clear 9 (ExpDecay.new (15 # 1000) 1028 0 ∅).1
       (ExpDecay.new (15 # 1000) 1028 0 ∅).2).2 = 0%Q /\
  ed_values (ExpDecay.clear 9 (ExpDecay.new (15 # 1000) 1028 0 ∅).1
               (ExpDecay.new (15 # 1000) 1028 0 ∅).2).1
    = ed_values (ExpDecay.new (15 # 1000) 1028 0 ∅).1 /\
  getTime
    (ExpDecay.clear 9 (ExpDecay.new (15 # 1000) 1028 0 ∅).1
       (ExpDecay.new (15 # 1000) 1028 0 ∅).2).2
    (ed_t0 (ExpDecay.clear 9 (ExpDecay.new (15 # 1000) 1028 0 ∅).1
              (ExpDecay.new (15 # 1000) 1028 0 ∅).2).1) = 9%Q /\
  getTime
    (ExpDecay.clear 9 (ExpDecay.new (15 # 1000) 1028 0 ∅).1
       (ExpDecay.new (15 # 1000) 1028 0 ∅).2).2
    (ed_t1 (ExpDecay.clear 9 (ExpDecay.new (15 # 1000) 1028 0 ∅).1
              (ExpDecay.new (15 # 1000) 1028 0 ∅).2).1)
    = (0 + rescaleThreshold + rescaleThreshold)%Q.
Proof.
  apply (expdecay_clear_keeps_entries 9 (0 + rescaleThreshold)
           (ExpDecay.new (15 # 1000) 1028 0 ∅).1 (ExpDecay.new (15 # 1000) 1028 0 ∅).2).
  reflexivity.
Defined.

(** ** More on the EWMA *)

Lemma update_in_period (now i : Q) (e : StandardEWMA) :
  (periods_at now e < 1)%Q ->
  exists e' : StandardEWMA,
    EWMA.update now i e = Some e' /\
    ewma_alpha e' = ewma_alpha e /\
    ewma_period e' = ewma_period e /\
    ewma_ts e' = ewma_ts e /\
    ewma_init e' = ewma_init e /\
    ewma_sample e' = (ewma_sample e + i)%Q /\
    (ewma_init e = true -> ewma_ewma e' = ewma_ewma e).
Proof.
  intros Hlt. apply Qltb_lt in Hlt. unfold EWMA.update. fold (periods_at now e).
  rewrite Hlt. destruct (ewma_init e) eqn:Hinit; simpl.
  - eexists. split; [reflexivity |]. simpl. rewrite ?Hinit.
    repeat split; reflexivity.
  - eexists. split; [reflexivity |]. simpl. rewrite ?Hinit.
    repeat split; try reflexivity. discriminate.
Qed.

(** X14: marks that all fall inside the current period of an EWMA are only
    added up: the period start, the flag and (once initialised) the rate stay
    as they are, and the uncommitted sum grows by the marks. *)
Theorem ewma_marks_within_period (marks : list (Q * Q)) (e : StandardEWMA) :
  ~ (ewma_period e == 0)%Q ->
  Forall (fun mark => (periods_at mark.1 e < 1)%Q) marks ->
  exists e' : StandardEWMA,
    ewma_updates marks e = Some e' /\
    ewma_ts e' = ewma_ts e /\
    ewma_init e' = ewma_init e /\
    ewma_sample e' = foldl (fun sum mark => (sum + mark.2)%Q) (ewma_sample e) marks /\
    (ewma_init e = true -> ewma_ewma e' = ewma_ewma e).
Proof.
  intros _. revert e.
  induction marks as [| [now i] marks IH]; intros e Hall.
  - exists e. repeat split; reflexivity.
  - apply Forall_cons in Hall as [Hnow Hrest]. cbn [fst snd] in Hnow.
    destruct (update_in_period now i e Hnow)
      as (e1 & Hup & Halpha & Hper & Hts & Hinit & Hsample & Hrate).
    destruct (IH e1) as (e' & Hrun & Hts' & Hinit' & Hsample' & Hrate').
    { eapply Forall_impl; [exact Hrest |]. intros mark Hm. cbn beta in *.
      unfold periods_at in *. now rewrite Hts, Hper. }
    exists e'. cbn [ewma_updates fst snd foldl]. rewrite Hup.
    split; [exact Hrun |]. split; [congruence |]. split; [congruence |].
    split; [now rewrite Hsample', Hsample |].
    intros Hi. rewrite Hrate', Hrate; [reflexivity | exact Hi | congruence].
Qed.

Lemma ewma_marks_within_period_witness :
  exists e' : StandardEWMA,
    ewma_updates [(1000, 2); (4000, 1)]%Q (EWMA.new (1 # 10) 5000 0) = Some e' /\
    ewma_ts e' = ewma_ts (EWMA.new (1 # 10) 5000 0) /\
    ewma_init e' = ewma_init (EWMA.new (1 # 10) 5000 0) /\
    ewma_sample e'
      = foldl (fun sum mark => (sum + mark.2)%Q)
          (ewma_sample (EWMA.new (1 # 10) 5000 0)) [(1000, 2); (4000, 1)]%Q /\
    (ewma_init (EWMA.new (1 # 10) 5000 0) = true ->
     ewma_ewma e' = ewma_ewma (EWMA.new (1 # 10) 5000 0)).
Proof.
  apply (ewma_marks_within_period [(1000, 2); (4000, 1)]%Q (EWMA.new (1 # 10) 5000 0)).
  - simpl. discriminate.
  - repeat constructor.
Defined.

Lemma Qpower_succ (a : Q) (n : nat) :
  (a ^ Z.of_nat (S n) == a * a ^ Z.of_nat n)%Q.
Proof.
  rewrite Nat2Z.inj_succ, <- Z.add_1_l.
  rewrite Qpower_plus' by lia. reflexivity.
Qed.

(** The loop runs once for each whole period left and scales the rate by
    [1 - alpha] each time. *)
Lemma idle_loop_closed (n : nat) :
  forall (fuel : nat) (e : StandardEWMA) (periods : Q),
    Z.to_nat (Qfloor periods) = n ->
    n <= fuel ->
    exists e' : StandardEWMA,
      EWMA.idle_loop fuel e periods = Some e' /\
      (ewma_ewma e' == (1 - ewma_alpha e) ^ Z.of_nat n * ewma_ewma e)%Q /\
      (ewma_ts e' == ewma_ts e + inject_Z (Z.of_nat n) * ewma_period e)%Q /\
      ewma_alpha e' = ewma_alpha e /\
      ewma_period e' = ewma_period e /\
      ewma_sample e' = ewma_sample e /\
      ewma_init e' = ewma_init e.
Proof.
  induction n as [| n IH]; intros fuel e periods Hn Hfuel.
  - assert (Hexit : Qle_bool 1 periods = false).
    { apply not_true_iff_false. rewrite Qle_bool_iff. intros Hge.
      apply Qfloor_resp_le in Hge. change (Qfloor 1) with 1%Z in Hge. lia. }
    exists e. rewrite (idle_loop_exit _ _ _ Hexit).
    split; [reflexivity |]. split; [simpl; ring |]. split; [simpl; ring |].
    repeat split; reflexivity.
  - assert (Hge : Qle_bool 1 periods = true).
    { apply Qle_bool_iff. pose proof (Qfloor_le periods) as Hfl.
      assert (Hone : (inject_Z 1 <= inject_Z (Qfloor periods))%Q)
        by (rewrite <- Zle_Qle; lia).
      change (inject_Z 1) with 1%Q in Hone. lra. }
    destruct fuel as [| fuel]; [lia |].
    cbn [EWMA.idle_loop]. rewrite Hge.
    destruct (IH fuel (EWMA.decay e) (periods - 1)%Q)
      as (e' & Hrun & Hrate & Hts & Halpha & Hper & Hsample & Hinit).
    { rewrite Qfloor_minus_1. lia. }
    { lia. }
    exists e'. split; [exact Hrun |].
    cbn [EWMA.decay ewma_alpha ewma_period ewma_ts ewma_ewma ewma_sample ewma_init] in *.
    split; [rewrite Hrate, Qpower_succ; ring |].
    split.
    + rewrite Hts, Nat2Z.inj_succ, <- Z.add_1_l, inject_Z_plus.
      change (inject_Z 1) with 1%Q. ring.
    + repeat split; assumption.
Qed.

(** X15: when [rate()] is called on an initialised EWMA after [k >= 1] whole
    periods, the just-ended period is committed as
    [alpha * (sample / seconds) + (1 - alpha) * rate], the result is scaled by
    [1 - alpha] for each of the [k - 1] further periods, the period start moves
    by [k] periods and the uncommitted sum is reset. *)
Theorem ewma_rate_after_whole_periods (now : Q) (e : StandardEWMA) :
  ~ (ewma_period e == 0)%Q ->
  ewma_init e = true ->
  (1 <= periods_at now e)%Q ->
  exists e' : StandardEWMA,
    EWMA.rate now e = Some (ewma_ewma e', e') /\
    (ewma_ewma e'
     == (1 - ewma_alpha e) ^ (Qfloor (periods_at now e) - 1)
        * (ewma_alpha e * (ewma_sample e / (ewma_period e / 1000))
           + (1 - ewma_alpha e) * ewma_ewma e))%Q /\
    (ewma_ts e'
     == ewma_ts e + inject_Z (Qfloor (periods_at now e)) * ewma_period e)%Q /\
    ewma_sample e' = 0%Q /\
    ewma_init e' = true.
Proof.
  intros _ Hinit Hge.
  assert (Hk : (1 <= Qfloor (periods_at now e))%Z).
  { change 1%Z with (Qfloor 1). now apply Qfloor_resp_le. }
  unfold EWMA.rate. fold (periods_at now e). rewrite Hinit.
  assert (Hlt : Qltb (periods_at now e) 1 = false) by now apply Qltb_ge.
  rewrite Hlt. cbn [negb orb]. unfold EWMA.advance. rewrite Hinit. cbn [negb].
  assert (Hle : Qle_bool 1 (periods_at now e) = true) by now apply Qle_bool_iff.
  rewrite Hle.
  destruct (idle_loop_closed (Z.to_nat (Qfloor (periods_at now e - 1)))
              (Z.to_nat (Qfloor (periods_at now e - 1)))
              (EWMA.commit e (ewma_period e / 1000)) (periods_at now e - 1)%Q)
    as (e' & Hrun & Hrate & Hts & Halpha & Hper & Hsample & Hi);
    [reflexivity | lia |].
  rewrite Hrun. exists e'. split; [reflexivity |].
  rewrite Qfloor_minus_1, Z2Nat.id in Hrate, Hts by lia.
  cbn [EWMA.commit ewma_alpha ewma_period ewma_ts ewma_ewma ewma_sample ewma_init] in *.
  split; [exact Hrate |]. split.
  - rewrite Hts. unfold Z.sub. rewrite inject_Z_plus, inject_Z_opp.
    change (inject_Z 1) with 1%Q. ring.
  - split; [exact Hsample | congruence].
Qed.

Lemma ewma_rate_after_whole_periods_witness :
  exists e' : StandardEWMA,
    EWMA.rate 12000 (mkEWMA (1 # 10) 5000 0 (3 # 5) 2 true) = Some (ewma_ewma e', e') /\
    (ewma_ewma e'
     == (1 - (1 # 10)) ^ (Qfloor (periods_at 12000 (mkEWMA (1 # 10) 5000 0 (3 # 5) 2 true)) - 1)
        * ((1 # 10) * (2 / (5000 / 1000)) + (1 - (1 # 10)) * (3 # 5)))%Q /\
    (ewma_ts e'
     == 0 + inject_Z (Qfloor (periods_at 12000 (mkEWMA (1 # 10) 5000 0 (3 # 5) 2 true)))
            * 5000)%Q /\
    ewma_sample e' = 0%Q /\
    ewma_init e' = true.
Proof.
  apply (ewma_rate_after_whole_periods 12000 (mkEWMA (1 # 10) 5000 0 (3 # 5) 2 true)).
  - simpl. discriminate.
  - reflexivity.
  - discriminate.
Defined.

(** X16: the first [update(i)] that arrives [k >= 1] whole periods after the
    creation of an EWMA commits the sum of the first period as the rate
    [sample / seconds], scaled by [1 - alpha] for each of the [k - 1] further
    periods; it sets the flag, moves the period start by [k] periods and
    starts the new sum with [i]. *)
Theorem ewma_first_commit_by_update (now i : Q) (e : StandardEWMA) :
  ~ (ewma_period e == 0)%Q ->
  ewma_init e = false ->
  (1 <= periods_at now e)%Q ->
  exists e' : StandardEWMA,
    EWMA.update now i e = Some e' /\
    (ewma_ewma e'
     == (1 - ewma_alpha e) ^ (Qfloor (periods_at now e) - 1)
        * (ewma_sample e / (ewma_period e / 1000)))%Q /\
    (ewma_ts e'
     == ewma_ts e + inject_Z (Qfloor (periods_at now e)) * ewma_period e)%Q /\
    (ewma_sample e' == i)%Q /\
    ewma_init e' = true.
Proof.
  intros _ Hinit Hge.
  assert (Hk : (1 <= Qfloor (periods_at now e))%Z).
  { change 1%Z with (Qfloor 1). now apply Qfloor_resp_le. }
  unfold EWMA.update. fold (periods_at now e). rewrite Hinit.
  assert (Hlt : Qltb (periods_at now e) 1 = false) by now apply Qltb_ge.
  rewrite Hlt. cbn [negb andb]. unfold EWMA.advance. rewrite Hinit. cbn [negb].
  set (seconds := (ewma_period e / 1000)%Q).
  destruct (Qle_bool 1 (periods_at now e - 1)) eqn:Hsecond.
  - apply Qle_bool_iff in Hsecond.
    assert (Hk2 : (2 <= Qfloor (periods_at now e))%Z).
    { apply Qfloor_resp_le in Hsecond. rewrite Qfloor_minus_1 in Hsecond.
      change (Qfloor 1) with 1%Z in Hsecond. lia. }
    destruct (idle_loop_closed (Z.to_nat (Qfloor (periods_at now e - 1 - 1)))
                (Z.to_nat (Qfloor (periods_at now e - 1 - 1)))
                (EWMA.commit (EWMA.first_commit e seconds) seconds)
                (periods_at now e - 1 - 1)%Q)
      as (e' & Hrun & Hrate & Hts & Halpha & Hper & Hsample & Hi);
      [reflexivity | lia |].
    rewrite Hrun. eexists. split; [reflexivity |].
    rewrite !Qfloor_minus_1, Z2Nat.id in Hrate, Hts by lia.
    cbn [EWMA.add_sample EWMA.commit EWMA.first_commit ewma_alpha ewma_period
         ewma_ts ewma_ewma ewma_sample ewma_init] in *.
    split.
    + set (m := (Qfloor (periods_at now e) - 1 - 1)%Z) in *.
      rewrite Hrate.
      replace (Qfloor (periods_at now e) - 1)%Z with (1 + m)%Z by (unfold m; lia).
      rewrite Qpower_plus' by (unfold m; lia).
      assert (Hz : (0 / seconds == 0)%Q) by (unfold Qdiv; ring).
      rewrite Hz. change ((1 - ewma_alpha e) ^ 1)%Q with (1 - ewma_alpha e)%Q. ring.
    + split.
      * rewrite Hts. unfold Z.sub. rewrite !inject_Z_plus, !inject_Z_opp.
        change (inject_Z 1) with 1%Q. ring.
      * split; [rewrite Hsample; ring | congruence].
  - assert (Hk1 : Qfloor (periods_at now e) = 1%Z).
    { assert (Hlt2 : (periods_at now e - 1 < 1)%Q).
      { apply Qnot_le_lt. intros Hc. apply Qle_bool_iff in Hc. congruence. }
      assert ((Qfloor (periods_at now e - 1) < 1)%Z).
      { rewrite Zlt_Qlt. apply Qle_lt_trans with (periods_at now e - 1)%Q;
          [apply Qfloor_le | exact Hlt2]. }
      rewrite Qfloor_minus_1 in *. lia. }
    rewrite (idle_loop_exit _ _ _ Hsecond).
    eexists. split; [reflexivity |].
    cbn [EWMA.add_sample EWMA.first_commit ewma_alpha ewma_period ewma_ts
         ewma_ewma ewma_sample ewma_init].
    rewrite Hk1. split; [simpl; fold seconds; ring |].
    split; [change (inject_Z 1) with 1%Q; ring |]. split; [ring | reflexivity].
Qed.

Lemma ewma_first_commit_by_update_witness :
  exists e' : StandardEWMA,
    EWMA.update 12000 4 (mkEWMA (1 # 10) 5000 0 0 3 false) = Some e' /\
    (ewma_ewma e'
     == (1 - (1 # 10)) ^ (Qfloor (periods_at 12000 (mkEWMA (1 # 10) 5000 0 0 3 false)) - 1)
        * (3 / (5000 / 1000)))%Q /\
    (ewma_ts e'
     == 0 + inject_Z (Qfloor (periods_at 12000 (mkEWMA (1 # 10) 5000 0 0 3 false)))
            * 5000)%Q /\
    (ewma_sample e' == 4)%Q /\
    ewma_init e' = true.
Proof.
  apply (ewma_first_commit_by_update 12000 4 (mkEWMA (1 # 10) 5000 0 0 3 false)).
  - simpl. discriminate.
  - reflexivity.
  - discriminate.
Defined.

(** ** The meter *)

(** X17: from the creation time on, [rateMean()] of a meter with a
    non-negative count lies between 0 and the count, and at the creation time
    itself it is the count. *)
Theorem meter_rateMean_bounds (now : Q) (m : StandardMeter) :
  (meter_start m <= now)%Q ->
  (0 <= Meter.count m)%Q ->
  (0 <= Meter.rateMean now m)%Q /\
  (Meter.rateMean now m <= Meter.count m)%Q /\
  (Meter.rateMean (meter_start m) m == Meter.count m)%Q.
Proof.
  intros Hnow Hcount. unfold Meter.rateMean.
  assert (Helapsed : (0 <= (now - meter_start m) / 1000)%Q).
  { apply Qle_shift_div_l; [reflexivity | lra]. }
  set (elapsed := ((now - meter_start m) / 1000)%Q) in *.
  split; [| split].
  - apply Qle_shift_div_l; lra.
  - apply Qle_shift_div_r; [lra | nra].
  - field. intros H. ring_simplify in H. discriminate H.
Qed.

Lemma meter_rateMean_bounds_witness :
  (0 <= Meter.rateMean 4000 (mkMeter 5 (EWMA.new 0 5000 0) (EWMA.new 0 5000 0)
                               (EWMA.new 0 5000 0) 0))%Q /\
  (Meter.rateMean 4000 (mkMeter 5 (EWMA.new 0 5000 0) (EWMA.new 0 5000 0)
                          (EWMA.new 0 5000 0) 0)
   <= Meter.count (mkMeter 5 (EWMA.new 0 5000 0) (EWMA.new 0 5000 0)
                     (EWMA.new 0 5000 0) 0))%Q /\
  (Meter.rateMean
     (meter_start (mkMeter 5 (EWMA.new 0 5000 0) (EWMA.new 0 5000 0)
                     (EWMA.new 0 5000 0) 0))
     (mkMeter 5 (EWMA.new 0 5000 0) (EWMA.new 0 5000 0) (EWMA.new 0 5000 0) 0)
   == Meter.count (mkMeter 5 (EWMA.new 0 5000 0) (EWMA.new 0 5000 0)
                     (EWMA.new 0 5000 0) 0))%Q.
Proof.
  apply (meter_rateMean_bounds 4000
           (mkMeter 5 (EWMA.new 0 5000 0) (EWMA.new 0 5000 0) (EWMA.new 0 5000 0) 0));
    discriminate.
Defined.

(** [update] returns for a non-zero period and keeps the period. *)
Lemma update_keeps_period (now i : Q) (e : StandardEWMA) :
  ~ (ewma_period e == 0)%Q ->
  exists e' : StandardEWMA,
    EWMA.update now i e = Some e' /\ ewma_period e' = ewma_period e.
Proof.
  intros Hp. unfold EWMA.update. fold (periods_at now e).
  destruct (negb (ewma_init e) && Qltb (periods_at now e) 1);
    [eexists; split; reflexivity |].
  destruct (Qltb (periods_at now e) 1); [eexists; split; reflexivity |].
  destruct (advance_total now e Hp) as (e' & -> & Hper & _).
  eexists. split; [reflexivity | exact Hper].
Qed.

Lemma mark_keeps_periods (now i : Q) (m : StandardMeter) :
  ~ (ewma_period (meter_a1 m) == 0)%Q ->
  ~ (ewma_period (meter_a5 m) == 0)%Q ->
  ~ (ewma_period (meter_a15 m) == 0)%Q ->
  exists m' : StandardMeter,
    Meter.mark now i m = Some m' /\
    meter_count m' = (meter_count m + i)%Q /\
    meter_start m' = meter_start m /\
    ~ (ewma_period (meter_a1 m') == 0)%Q /\
    ~ (ewma_period (meter_a5 m') == 0)%Q /\
    ~ (ewma_period (meter_a15 m') == 0)%Q.
Proof.
  intros H1 H5 H15. unfold Meter.mark.
  destruct (update_keeps_period now i _ H1) as (a1 & -> & Hp1).
  destruct (update_keeps_period now i _ H5) as (a5 & -> & Hp5).
  destruct (update_keeps_period now i _ H15) as (a15 & -> & Hp15).
  cbn [mbind option_bind]. eexists. split; [reflexivity |].
  cbn [meter_count meter_start meter_a1 meter_a5 meter_a15].
  rewrite Hp1, Hp5, Hp15. repeat split; assumption.
Qed.

Lemma meter_marks_from (marks : list (Q * Q)) :
  forall m : StandardMeter,
    ~ (ewma_period (meter_a1 m) == 0)%Q ->
    ~ (ewma_period (meter_a5 m) == 0)%Q ->
    ~ (ewma_period (meter_a15 m) == 0)%Q ->
    exists m' : StandardMeter,
      meter_marks marks m = Some m' /\
      meter_count m' = foldl (fun sum v => (sum + v)%Q) (meter_count m) marks.*2 /\
      meter_start m' = meter_start m.
Proof.
  induction marks as [| [now i] marks IH]; intros m H1 H5 H15.
  - exists m. repeat split; reflexivity.
  - destruct (mark_keeps_periods now i m H1 H5 H15)
      as (m1 & Hmark & Hcount & Hstart & H1' & H5' & H15').
    destruct (IH m1 H1' H5' H15') as (m' & Hrun & Hcount' & Hstart').
    exists m'. cbn [meter_marks fst snd]. rewrite Hmark.
    split; [exact Hrun |]. split; [| congruence].
    rewrite Hcount', Hcount. reflexivity.
Qed.

(** X18: every sequence of [mark] calls on a new meter goes through, at
    whatever times the calls come, and [count()] is then the sum of the
    marks. *)
Theorem meter_count_is_sum_of_marks (Math_exp : Q -> Q) (t0 : Q)
  (marks : list (Q * Q)) :
  exists m : StandardMeter,
    meter_marks marks (Meter.new Math_exp t0) = Some m /\
    Meter.count m = sampleSum marks.*2.
Proof.
  destruct (meter_marks_from marks (Meter.new Math_exp t0))
    as (m & Hrun & Hcount & _); try (simpl; discriminate).
  exists m. split; [exact Hrun | exact Hcount].
Qed.

(** ** The timer over several updates *)

Lemma ones_sum (n : nat) (init : Q) :
  (foldl (fun sum v => (sum + v)%Q) init (replicate n 1%Q)
   == init + inject_Z (Z.of_nat n))%Q.
Proof.
  revert init. induction n as [| n IH]; intros init.
  - simpl. change (inject_Z 0) with 0%Q. ring.
  - cbn [replicate foldl]. rewrite IH, Nat2Z.inj_succ, <- Z.add_1_l, inject_Z_plus.
    change (inject_Z 1) with 1%Q. ring.
Qed.

Lemma timer_updates_from (Math_exp : Q -> Q) (ops : list (Q * Q * Q)) :
  forall (s : ExpDecaySample) (m : StandardMeter) (h : heap),
    h !! _values (super s) = Some (ArrayObj []) ->
    ed_t1 s <> _values (super s) ->
    ~ (ewma_period (meter_a1 m) == 0)%Q ->
    ~ (ewma_period (meter_a5 m) == 0)%Q ->
    ~ (ewma_period (meter_a15 m) == 0)%Q ->
    exists (s' : ExpDecaySample) (m' : StandardMeter) (h' : heap),
      timer_updates Math_exp ops (mkTimer (mkHistogram (SExpDecay s)) m) h
        = Some (mkTimer (mkHistogram (SExpDecay s')) m', h') /\
      h' !! _values (super s') = Some (ArrayObj []) /\
      _count (super s') = (_count (super s) + Z.of_nat (length ops))%Z /\
      meter_count m'
        = foldl (fun sum v => (sum + v)%Q) (meter_count m) (replicate (length ops) 1%Q).
Proof.
  induction ops as [| [[now u] v] ops IH]; intros s m h Hl Hne H1 H5 H15.
  - exists s, m, h. cbn [timer_updates length replicate foldl].
    split; [reflexivity |]. split; [exact Hl |]. split; [lia | reflexivity].
  - cbn [timer_updates fst snd].
    unfold Timer.update, Histogram.update, Sample_update.
    cbn [timer_hist timer_meter hist_sample].
    destruct (expdecay_update_base Math_exp now u v s h Hl Hne) as (Hl1 & Hne1 & Hc1).
    destruct (ExpDecay.update Math_exp now u v s h) as [s1 h1]. cbn [fst snd] in *.
    destruct (mark_keeps_periods now 1 m H1 H5 H15)
      as (m1 & -> & Hcount & _ & H1' & H5' & H15').
    cbn [mbind option_bind].
    destruct (IH s1 m1 h1 Hl1 Hne1 H1' H5' H15') as (s' & m' & h' & Hrun & Hl' & Hc' & Hm').
    exists s', m', h'. split; [exact Hrun |]. split; [exact Hl' |].
    split; [rewrite Hc', Hc1; cbn [length]; lia |].
    rewrite Hm', Hcount. reflexivity.
Qed.

(** X19: after any [N] updates of a new StandardTimer, at any times and with
    any durations, [count()] and the count of the meter are [N], while
    [max()], [min()], [mean()], [sum()] and [variance()] are 0. *)
Theorem timer_statistics_stay_zero (Math_exp : Q -> Q) (t0 : Q)
  (ops : list (Q * Q * Q)) (h : heap) :
  exists (t : StandardTimer) (h' : heap),
    timer_updates Math_exp ops (Timer.new Math_exp t0 h).1 (Timer.new Math_exp t0 h).2
      = Some (t, h') /\
    Timer.count t = Z.of_nat (length ops) /\
    (Meter.count (timer_meter t) == inject_Z (Z.of_nat (length ops)))%Q /\
    Timer.max t h' = 0%Q /\
    Timer.min t h' = 0%Q /\
    Timer_mean t h' = 0%Q /\
    Timer_sum t h' = 0%Q /\
    Timer_variance t h' = 0%Q.
Proof.
  unfold Timer.new.
  destruct (expdecay_new_base (15 # 1000) 1028 t0 h) as (Hl & Hne & Hcount).
  destruct (ExpDecay.new (15 # 1000) 1028 t0 h) as [s h0]. cbn [fst snd] in *.
  destruct (timer_updates_from Math_exp ops s (Meter.new Math_exp t0) h0 Hl Hne)
    as (s' & m' & h' & Hrun & Hl' & Hc' & Hm'); try (simpl; discriminate).
  exists (mkTimer (mkHistogram (SExpDecay s')) m'), h'.
  split; [exact Hrun |].
  unfold Timer.count, Timer.max, Timer.min, Timer_mean, Timer_sum, Timer_variance,
    Histogram.count, Histogram.max, Histogram.min, Histogram_mean, Histogram_sum,
    Histogram_variance, Uniform.count, Uniform.max, Uniform.min, Uniform.mean,
    Uniform.sum, Uniform.variance, Meter.count.
  cbn [timer_hist timer_meter hist_sample base].
  rewrite (read_array_lookup _ _ _ Hl').
  split; [lia |]. split.
  - rewrite Hm', ones_sum. cbn [Meter.new meter_count]. ring.
  - repeat split; reflexivity.
Qed.

(** ** The counter *)

(** X20: after any sequence of [inc] and [dec] calls on a new counter, or on
    one that was just cleared, the count is the sum of the increments minus
    the decrements; a call without argument steps by 1. *)
Theorem counter_count_is_net_sum (calls : list counter_call) (c : StandardCounter) :
  (Counter.count (foldl counter_step Counter.new calls)
   == sampleSum (map counter_delta calls))%Q /\
  (Counter.count (foldl counter_step (Counter.clear c) calls)
   == sampleSum (map counter_delta calls))%Q.
Proof.
  assert (Hstep : forall (l : list Q) (a b : Q),
             (a == b)%Q ->
             (foldl (fun sum v => (sum + v)%Q) a l
              == foldl (fun sum v => (sum + v)%Q) b l)%Q).
  { induction l as [| x l IHl]; intros a b Hab; [exact Hab |].
    cbn [foldl]. apply IHl. now rewrite Hab. }
  assert (Hgen : forall (cs : list counter_call) (c0 : StandardCounter),
             (Counter.count (foldl counter_step c0 cs)
              == foldl (fun sum v => (sum + v)%Q) (Counter.count c0)
                   (map counter_delta cs))%Q).
  { induction cs as [| call cs IH]; intros c0; [reflexivity |].
    cbn [foldl map]. rewrite IH. apply Hstep.
    destruct call as [[i |] | [i |]]; unfold Counter.count; simpl; ring. }
  split; rewrite Hgen; reflexivity.
Qed.

(** ** The registry *)

Lemma getByName_length (n : string) (metrics : list Registration) :
  (length (Registry.getByName n metrics) =? 0)%nat = true
  <-> ~ In n (map reg_name metrics).
Proof.
  unfold Registry.getByName. rewrite Nat.eqb_eq, length_map.
  induction metrics as [| r metrics IH]; simpl; [tauto |].
  destruct (String.eqb (reg_name r) n) eqn:Heq; simpl.
  - apply String.eqb_eq in Heq. split; [discriminate | tauto].
  - apply String.eqb_neq in Heq. rewrite IH. tauto.
Qed.

Lemma registerMetric_names (metric : MetricRef) (n : string)
  (metrics : list Registration) :
  NoDup (map reg_name metrics) ->
  NoDup (map reg_name (Registry.registerMetric metric n metrics)).
Proof.
  intros Hnd. unfold Registry.registerMetric.
  destruct (length (Registry.getByName n metrics) =? 0)%nat eqn:Hlen; simpl;
    [| exact Hnd].
  apply getByName_length in Hlen.
  rewrite map_app. simpl. apply NoDup_app. split; [exact Hnd |].
  split; [| apply NoDup_singleton].
  intros x Hx Hx'. apply list_elem_of_In in Hx.
  apply list_elem_of_singleton in Hx'. now subst.
Qed.

Lemma remove_one_sublist (metrics : list Registration) (metric : MetricRef) :
  Registry.remove_one metrics metric `sublist_of` metrics.
Proof.
  unfold Registry.remove_one.
  destruct (Registry.indexOf metric (map metricRef metrics));
    [apply sublist_delete | reflexivity].
Qed.

Lemma removeMetrics_sublist (n : string) (metrics : list Registration) :
  Registry.removeMetrics n metrics `sublist_of` metrics.
Proof.
  unfold Registry.removeMetrics.
  generalize (Registry.getByName n metrics). intros targets.
  assert (Hgen : forall ms : list Registration,
             foldl Registry.remove_one ms targets `sublist_of` ms).
  { induction targets as [| m targets IH]; intros ms; [reflexivity |].
    simpl. etransitivity; [apply IH | apply remove_one_sublist]. }
  apply Hgen.
Qed.

Lemma map_is_fmap {A B : Type} (f : A -> B) (l : list A) : map f l = f <$> l.
Proof. induction l as [| x l IH]; simpl; [reflexivity | now rewrite IH]. Qed.

Lemma getOrRegister_names (standard null : metric_class) (n : string)
  (g : Globals) (metrics : list Registration) :
  NoDup (map reg_name metrics) ->
  NoDup (map reg_name (Registry.getOrRegister standard null n g metrics).2).
Proof.
  intros Hnd. unfold Registry.getOrRegister, Registry.construct.
  destruct (length (Registry.getByName n metrics) =? 0)%nat; cbn [negb andb];
    [| exact Hnd].
  destruct (_useNullMetrics g) eqn:Hnull; cbn [negb andb _useNullMetrics];
    rewrite ?Hnull; cbn [snd]; now apply registerMetric_names.
Qed.

(** X21: whatever calls are made on a new registry ([registerMetric],
    [removeMetrics], the [getOrRegister...] methods, with or without null
    metrics), no two registrations carry the same name. *)
Theorem registry_names_unique (calls : list registry_call) (g : Globals) :
  NoDup (map reg_name (foldl registry_step (g, []) calls).2).
Proof.
  induction calls as [| call calls IH] using rev_ind; [constructor |].
  rewrite foldl_app. cbn [foldl].
  destruct (foldl registry_step (g, []) calls) as [g' metrics]. cbn [snd] in IH.
  destruct call as [metric metric_name | n | standard null n given | t];
    cbn [registry_step fst snd].
  - now apply registerMetric_names.
  - rewrite map_is_fmap in *. eapply sublist_NoDup; [exact IH |].
    apply fmap_sublist, removeMetrics_sublist.
  - unfold Registry.getOrRegisterWith.
    destruct (negb (negb (length (Registry.getByName n metrics) =? 0)%nat) && negb given);
      [exact IH |].
    cbn [snd]. now apply getOrRegister_names.
  - exact IH.
Qed.

Lemma getByName_app (n : string) (l1 l2 : list Registration) :
  Registry.getByName n (l1 ++ l2) = Registry.getByName n l1 ++ Registry.getByName n l2.
Proof. unfold Registry.getByName. now rewrite List.filter_app, map_app. Qed.

(** X22: a [getOrRegister...] call returns a metric.  When the name is
    registered it is the first metric of that name, of whatever class, and
    nothing changes; otherwise it is a new object of the standard class (of
    the null class under [useNullMetrics]) with the next id, registered at the
    end.  The same call made again returns the same metric and changes
    nothing. *)
Theorem getOrRegister_returns_registered (standard null : metric_class)
  (n : string) (g : Globals) (metrics : list Registration) :
  exists m : MetricRef,
    (Registry.getOrRegister standard null n g metrics).1.1 = Some m /\
    (In n (map reg_name metrics) ->
     Registry.getOrRegister standard null n g metrics = (Some m, g, metrics) /\
     head (Registry.getByName n metrics) = Some m) /\
    (~ In n (map reg_name metrics) ->
     m = mkMetricRef (COUNTER g) (if _useNullMetrics g then null else standard) /\
     Registry.getOrRegister standard null n g metrics
       = (Some m, mkGlobals (S (COUNTER g)) (_useNullMetrics g),
          metrics ++ [mkRegistration m n])) /\
    Registry.getOrRegister standard null n
      (Registry.getOrRegister standard null n g metrics).1.2
      (Registry.getOrRegister standard null n g metrics).2
    = Registry.getOrRegister standard null n g metrics.
Proof.
  assert (Hpresent : forall (g0 : Globals) (ms : list Registration),
             (length (Registry.getByName n ms) =? 0)%nat = false ->
             Registry.getOrRegister standard null n g0 ms
               = (head (Registry.getByName n ms), g0, ms) /\
             exists m, head (Registry.getByName n ms) = Some m).
  { intros g0 ms Hlen. unfold Registry.getOrRegister. rewrite Hlen.
    cbn [negb andb]. split; [reflexivity |].
    destruct (Registry.getByName n ms) as [| m l]; [discriminate | eauto]. }
  destruct (length (Registry.getByName n metrics) =? 0)%nat eqn:Hlen.
  - pose proof (proj1 (getByName_length n metrics) Hlen) as Habsent.
    assert (Hnone : Registry.getByName n metrics = []).
    { apply Nat.eqb_eq in Hlen. now destruct (Registry.getByName n metrics). }
    set (m := mkMetricRef (COUNTER g) (if _useNullMetrics g then null else standard)).
    assert (Hcall : Registry.getOrRegister standard null n g metrics
                    = (Some m, mkGlobals (S (COUNTER g)) (_useNullMetrics g),
                       metrics ++ [mkRegistration m n])).
    { unfold Registry.getOrRegister, Registry.construct, Registry.registerMetric.
      rewrite Hlen. cbn [negb andb].
      destruct (_useNullMetrics g) eqn:Hnull; cbn [negb andb _useNullMetrics];
        rewrite ?Hnull, ?Hlen; cbn [negb andb];
        rewrite getByName_app, Hnone; unfold Registry.getByName; simpl;
        rewrite String.eqb_refl; subst m; rewrite ?Hnull; reflexivity. }
    exists m. rewrite Hcall. cbn [fst snd].
    split; [reflexivity |]. split; [tauto |]. split; [intros _; now split |].
    destruct (Hpresent (mkGlobals (S (COUNTER g)) (_useNullMetrics g))
                (metrics ++ [mkRegistration m n])) as [-> _].
    + rewrite getByName_app, Hnone. unfold Registry.getByName. simpl.
      now rewrite String.eqb_refl.
    + rewrite getByName_app, Hnone. unfold Registry.getByName. simpl.
      now rewrite String.eqb_refl.
  - destruct (Hpresent g metrics Hlen) as [Hcall [m Hm]].
    assert (Hin : In n (map reg_name metrics)).
    { destruct (in_dec string_dec n (map reg_name metrics)) as [Hi | Hni]; [exact Hi |].
      apply getByName_length in Hni. congruence. }
    exists m. rewrite Hcall, Hm. cbn [fst snd].
    split; [reflexivity |]. split; [intros _; now split |].
    split; [tauto |].
    now rewrite Hcall, Hm.
Qed.

Lemma filter_all {A : Type} (f : A -> bool) (l : list A) :
  (forall x : A, In x l -> f x = true) -> List.filter f l = l.
Proof.
  induction l as [| x l IH]; intros Hall; simpl; [reflexivity |].
  rewrite (Hall x (or_introl eq_refl)), IH; [reflexivity |].
  intros y Hy. apply Hall. now right.
Qed.

Lemma filter_none {A : Type} (f : A -> bool) (l : list A) :
  (forall x : A, f x = false) -> List.filter f l = [].
Proof.
  intros Hnone. induction l as [| x l IH]; simpl; [reflexivity |].
  now rewrite Hnone.
Qed.

Lemma filter_twice {A : Type} (f g : A -> bool) (l : list A) :
  List.filter f (List.filter g l) = List.filter (fun x => g x && f x) l.
Proof.
  induction l as [| x l IH]; simpl; [reflexivity |].
  destruct (g x); simpl; [destruct (f x) |]; now rewrite IH.
Qed.

(** With every object registered once, one turn of the loop removes the
    registration of the object. *)
Lemma remove_one_filter (metric : MetricRef) (metrics : list Registration) :
  NoDup (map (fun r => metric_id (metricRef r)) metrics) ->
  Registry.remove_one metrics metric
    = List.filter (fun r => negb (metric_id (metricRef r) =? metric_id metric)%nat)
        metrics.
Proof.
  unfold Registry.remove_one.
  induction metrics as [| r metrics IH]; intros Hnd; [reflexivity |].
  simpl in Hnd. apply NoDup_cons in Hnd as [Hnotin Hnd].
  cbn [map Registry.indexOf List.filter].
  destruct (metric_id (metricRef r) =? metric_id metric)%nat eqn:Heq; cbn [negb].
  - apply Nat.eqb_eq in Heq. cbn [delete list_delete].
    symmetry. apply filter_all. intros x Hx.
    apply negb_true_iff, Nat.eqb_neq. intros Hid. apply Hnotin.
    rewrite Heq, <- Hid. apply list_elem_of_In.
    apply (in_map (fun r0 => metric_id (metricRef r0))), Hx.
  - specialize (IH Hnd).
    destruct (Registry.indexOf metric (map metricRef metrics)) as [i |];
      cbn [delete list_delete]; now rewrite <- IH.
Qed.

Lemma remove_all_filter (targets : list MetricRef) :
  forall metrics : list Registration,
    NoDup (map (fun r => metric_id (metricRef r)) metrics) ->
    foldl Registry.remove_one metrics targets
      = List.filter
          (fun r => negb (existsb (fun m => (metric_id (metricRef r) =? metric_id m)%nat)
                            targets))
          metrics.
Proof.
  induction targets as [| m targets IH]; intros metrics Hnd.
  - simpl. symmetry. now apply filter_all.
  - cbn [foldl]. rewrite (remove_one_filter m metrics Hnd).
    rewrite IH.
    + rewrite filter_twice. apply filter_ext. intros r. cbn [existsb].
      now rewrite negb_orb.
    + rewrite map_is_fmap in *. eapply sublist_NoDup; [exact Hnd |].
      apply fmap_sublist. rewrite <- remove_one_filter by (now rewrite map_is_fmap).
      apply remove_one_sublist.
Qed.

Lemma same_id_same_registration (metrics : list Registration) (r r' : Registration) :
  NoDup (map (fun r => metric_id (metricRef r)) metrics) ->
  In r metrics -> In r' metrics ->
  metric_id (metricRef r) = metric_id (metricRef r') -> r = r'.
Proof.
  induction metrics as [| x metrics IH]; intros Hnd Hr Hr' Hid; [inversion Hr |].
  simpl in Hnd. apply NoDup_cons in Hnd as [Hnotin Hnd].
  rewrite list_elem_of_In in Hnotin.
  destruct Hr as [-> | Hr], Hr' as [-> | Hr'].
  - reflexivity.
  - exfalso. apply Hnotin. rewrite Hid.
    apply (in_map (fun r0 => metric_id (metricRef r0))), Hr'.
  - exfalso. apply Hnotin. rewrite <- Hid.
    apply (in_map (fun r0 => metric_id (metricRef r0))), Hr.
  - now apply IH.
Qed.

(** X23: in a registry where every metric object is registered once,
    [removeMetrics(name)] removes exactly the registrations of that name:
    afterwards no metric is found under the name, and the metrics found under
    any other name are the ones found before. *)
Theorem removeMetrics_removes_the_name (n : string) (metrics : list Registration) :
  NoDup (map (fun r => metric_id (metricRef r)) metrics) ->
  Registry.removeMetrics n metrics
    = List.filter (fun r => negb (String.eqb (reg_name r) n)) metrics /\
  Registry.getByName n (Registry.removeMetrics n metrics) = [] /\
  (forall n' : string,
      n' <> n ->
      Registry.getByName n' (Registry.removeMetrics n metrics)
        = Registry.getByName n' metrics).
Proof.
  intros Hnd.
  assert (Heq : Registry.removeMetrics n metrics
                = List.filter (fun r => negb (String.eqb (reg_name r) n)) metrics).
  { unfold Registry.removeMetrics. rewrite (remove_all_filter _ metrics Hnd).
    apply filter_ext_in. intros r Hr. f_equal.
    destruct (String.eqb (reg_name r) n) eqn:Hname.
    - apply existsb_exists. exists (metricRef r). split; [| apply Nat.eqb_refl].
      unfold Registry.getByName. apply in_map, filter_In. now split.
    - apply not_true_iff_false. intros Hex.
      apply existsb_exists in Hex as (m & Hm & Hid).
      unfold Registry.getByName in Hm. apply in_map_iff in Hm as (r' & <- & Hr').
      apply filter_In in Hr' as [Hr' Hname'].
      apply Nat.eqb_eq in Hid.
      rewrite (same_id_same_registration metrics r r' Hnd Hr Hr' Hid) in Hname.
      congruence. }
  rewrite Heq. unfold Registry.getByName. split; [reflexivity |]. split.
  - rewrite filter_twice, filter_none; [reflexivity |].
    intros r. now destruct (String.eqb (reg_name r) n).
  - intros n' Hne. rewrite filter_twice. f_equal. apply filter_ext. intros r.
    destruct (String.eqb (reg_name r) n) eqn:H1; simpl; [| reflexivity].
    apply String.eqb_eq in H1. symmetry. apply String.eqb_neq. congruence.
Qed.

Lemma removeMetrics_removes_the_name_witness :
  Registry.removeMetrics "load" load_registry
    = List.filter (fun r => negb (String.eqb (reg_name r) "load")) load_registry /\
  Registry.getByName "load" (Registry.removeMetrics "load" load_registry) = [] /\
  (forall n' : string,
      n' <> "load"%string ->
      Registry.getByName n' (Registry.removeMetrics "load" load_registry)
        = Registry.getByName n' load_registry).
Proof.
  apply (removeMetrics_removes_the_name "load" load_registry).
  repeat constructor. intros H. inversion H.
Defined.

(** One counter registered under two names, the second after a [setName]:
    removing the second name takes the first registration away. *)
Example removeMetrics_of_a_renamed_metric :
  Registry.removeMetrics "b"
    (Registry.registerMetric (mkMetricRef 0 CStandardCounter) "b"
       (Registry.registerMetric (mkMetricRef 0 CStandardCounter) "a" []))
  = [mkRegistration (mkMetricRef 0 CStandardCounter) "b"].
Proof. reflexivity. Qed.

(** X24: under [useNullMetrics] a [getOrRegister...] call for a new name
    registers a no-op metric: it is found by name and is part of
    [getMetricList()], but none of the lists by kind ([getCounterList()], ...,
    [getTimerList()]) contains it. *)
Theorem null_metrics_are_not_listed (standard null : metric_class) (n : string)
  (g : Globals) (metrics : list Registration) :
  is_null_class null = true ->
  _useNullMetrics g = true ->
  ~ In n (map reg_name metrics) ->
  exists m : MetricRef,
    class_of m = null /\
    Registry.getByName n (Registry.getOrRegister standard null n g metrics).2 = [m] /\
    Registry.getMetricList (Registry.getOrRegister standard null n g metrics).2
      = Registry.getMetricList metrics ++ [m] /\
    Registry.getCounterList (Registry.getOrRegister standard null n g metrics).2
      = Registry.getCounterList metrics /\
    Registry.getGaugeList (Registry.getOrRegister standard null n g metrics).2
      = Registry.getGaugeList metrics /\
    Registry.getHealthcheckList (Registry.getOrRegister standard null n g metrics).2
      = Registry.getHealthcheckList metrics /\
    Registry.getHistogramList (Registry.getOrRegister standard null n g metrics).2
      = Registry.getHistogramList metrics /\
    Registry.getMeterList (Registry.getOrRegister standard null n g metrics).2
      = Registry.getMeterList metrics /\
    Registry.getTimerList (Registry.getOrRegister standard null n g metrics).2
      = Registry.getTimerList metrics.
Proof.
  intros Hnull Hflag Habsent.
  destruct (getOrRegister_returns_registered standard null n g metrics)
    as (m & _ & _ & Hnew & _).
  destruct (Hnew Habsent) as [Hm ->]. rewrite Hflag in Hm. subst m.
  exists (mkMetricRef (COUNTER g) null). split; [reflexivity |]. cbn [snd].
  assert (Hnone : Registry.getByName n metrics = []).
  { apply getByName_length in Habsent. apply Nat.eqb_eq in Habsent.
    now destruct (Registry.getByName n metrics). }
  split.
  - rewrite getByName_app, Hnone. unfold Registry.getByName. simpl.
    now rewrite String.eqb_refl.
  - unfold Registry.getMetricList, Registry.getCounterList, Registry.getGaugeList,
      Registry.getHealthcheckList, Registry.getHistogramList, Registry.getMeterList,
      Registry.getTimerList.
    rewrite !List.filter_app, !map_app. cbn [List.filter map metricRef].
    unfold Registry.isCounter, Registry.isGauge, Registry.isHealthcheck,
      Registry.isHistogram, Registry.isMeter, Registry.isTimer. cbn [class_of].
    destruct null; try discriminate Hnull; cbn [map]; rewrite ?app_nil_r;
      repeat split; reflexivity.
Qed.

Lemma null_metrics_are_not_listed_witness :
  exists m : MetricRef,
    class_of m = CNullTimer /\
    Registry.getByName "latency"
      (Registry.getOrRegister CStandardTimer CNullTimer "latency" (mkGlobals 1 true)
         load_registry).2 = [m] /\
    Registry.getMetricList
      (Registry.getOrRegister CStandardTimer CNullTimer "latency" (mkGlobals 1 true)
         load_registry).2 = Registry.getMetricList load_registry ++ [m] /\
    Registry.getCounterList
      (Registry.getOrRegister CStandardTimer CNullTimer "latency" (mkGlobals 1 true)
         load_registry).2 = Registry.getCounterList load_registry /\
    Registry.getGaugeList
      (Registry.getOrRegister CStandardTimer CNullTimer "latency" (mkGlobals 1 true)
         load_registry).2 = Registry.getGaugeList load_registry /\
    Registry.getHealthcheckList
      (Registry.getOrRegister CStandardTimer CNullTimer "latency" (mkGlobals 1 true)
         load_registry).2 = Registry.getHealthcheckList load_registry /\
    Registry.getHistogramList
      (Registry.getOrRegister CStandardTimer CNullTimer "latency" (mkGlobals 1 true)
         load_registry).2 = Registry.getHistogramList load_registry /\
    Registry.getMeterList
      (Registry.getOrRegister CStandardTimer CNullTimer "latency" (mkGlobals 1 true)
         load_registry).2 = Registry.getMeterList load_registry /\
    Registry.getTimerList
      (Registry.getOrRegister CStandardTimer CNullTimer "latency" (mkGlobals 1 true)
         load_registry).2 = Registry.getTimerList load_registry.
Proof.
  apply (null_metrics_are_not_listed CStandardTimer CNullTimer "latency"
           (mkGlobals 1 true) load_registry).
  - reflexivity.
  - reflexivity.
  - simpl. intros [H | H]; [discriminate H | exact H].
Defined.

(** ** Percentiles at whole ranks *)




